(** * refactor-bot: the plan / refactor control loop and its result records

    A shallow embedding of

    - [refactor/types.ts] (lines 101-348 of the file that starts with
      [enrichObjective.ts]): the result data model, [lastCommit],
      [pushRefactorFileResults], [mutateToMergeRefactorRecords] and
      [mutateToMergeRefactorFilesResults];
    - [refactor/enrichObjective.ts]: the [transform] of [enrichObjective];
    - [refactor/planAndRefactor.ts]: [planAndRefactor].

    Modelling conventions.

    - A JS object used as a dictionary from file paths to arrays is a
      [gmap string (list _)] of its own properties, on top of the
      properties every plain object inherits from [Object.prototype]:
      [o[k]] is [get o k], [o[k] = v] is [<[k:=v]> o].
    - A function that mutates an argument is modelled by the value of that
      argument after the call, returned or thrown, and by what the call
      throws, if anything. Arrays and records are values: the merge stores
      an array of [from] in [into] as it is, and nothing here pushes to
      an array after it was merged, so the sharing has no effect.
    - Asynchronous functions are run to completion in program order (the
      source awaits every call); a rejected promise and a thrown exception
      are the same outcome, [Rejected]. *)

From stdpp Require Import base option list strings gmap fin_maps.
From Stdlib Require Import ZArith.

Local Open Scope string_scope.
Local Open Scope list_scope.

(** ** Arrays *)

(** [array[i]] for a JS number [i] holding an integer: the element at [i]
    when [0 <= i < length], [undefined] otherwise (also for [i = -1]). *)
Definition array_get {A : Type} (array : list A) (i : Z) : option A :=
  if decide (0 ≤ i)%Z then array !! Z.to_nat i else None.

(** [array.splice(start, deleteCount, ...items)] for in-range arguments:
    the array after the call. *)
Definition splice {A : Type} (start deleteCount : nat) (items : list A)
    (array : list A) : list A :=
  take start array ++ items ++ drop (start + deleteCount) array.

(** The line feed character, ['\n']. *)
Definition newline : string := String (Ascii.ascii_of_nat 10) "".

(** [parts.join(separator)]. *)
Fixpoint join (separator : string) (parts : list string) : string :=
  match parts with
  | [] => ""
  | [part] => part
  | part :: rest => part +:+ separator +:+ join separator rest
  end.

(** ** Data model ([types.ts]) *)

Record RefactorStepResult := mkRefactorStepResult {
  task : string;
  fileContents : string;
  step_commit : string;
}.

Record Issue := mkIssue {
  command : string;
  issue : string;
  issue_filePath : string;
  issue_commit : string;
  code : option string;
}.

(** [refactorSuccessResultSchema], [status: 'success']. *)
Record RefactorSuccessResult := mkRefactorSuccessResult {
  success_filePath : string;
  success_issues : list Issue;
  success_steps : list RefactorStepResult;
  success_lastCommit : option string;
}.

(** [refactorFailedResultSchema], [status: 'failure']. *)
Record RefactorFailedResult := mkRefactorFailedResult {
  failureDescription : string;
  failure_filePath : string;
  failure_issues : list Issue;
  failure_steps : list RefactorStepResult;
  failure_lastCommit : option string;
}.

(** [refactorResultSchema]: the union discriminated by [status]. *)
Inductive RefactorResult :=
| Success (r : RefactorSuccessResult)
| Failure (r : RefactorFailedResult).

(** Objects with a [filePath], [steps] and [lastCommit] property. *)
Class FileResult (R : Type) := {
  filePath : R → string;
  steps : R → list RefactorStepResult;
  lastCommitOf : R → option string;
}.

#[export] Instance RefactorSuccessResult_FileResult : FileResult RefactorSuccessResult :=
  {| filePath := success_filePath; steps := success_steps;
     lastCommitOf := success_lastCommit |}.

#[export] Instance RefactorFailedResult_FileResult : FileResult RefactorFailedResult :=
  {| filePath := failure_filePath; steps := failure_steps;
     lastCommitOf := failure_lastCommit |}.

#[export] Instance RefactorResult_FileResult : FileResult RefactorResult :=
  {| filePath r := match r with Success s => filePath s | Failure f => filePath f end;
     steps r := match r with Success s => steps s | Failure f => steps f end;
     lastCommitOf r :=
       match r with Success s => lastCommitOf s | Failure f => lastCommitOf f end |}.

(** [RefactorResultByFilePathRecord] is [gmap string (list RefactorResult)];
    the [discarded] record holds failed results only. *)
Record RefactorFilesResult := mkRefactorFilesResult {
  accepted : gmap string (list RefactorResult);
  discarded : gmap string (list RefactorFailedResult);
}.

(** The entries of a record under a key, an absent key read as no entries. *)
Definition entries {A : Type} (record : gmap string (list A)) (key : string) : list A :=
  default [] (record !! key).

(** ** [lastCommit] *)

(** [T extends { commit: string }]. *)
Class HasCommit (T : Type) := commit : T → string.

#[export] Instance RefactorStepResult_HasCommit : HasCommit RefactorStepResult :=
  step_commit.

(** [steps[steps.length - 1]?.commit] *)
Definition lastCommit {T : Type} `{HasCommit T} (steps : list T) : option string :=
  commit <$> array_get steps (Z.of_nat (length steps) - 1)%Z.

(** The invariant of the data model: [lastCommit] is the commit of the final
    step, or absent when there is no step. *)
Definition lastCommit_invariant {R : Type} `{FileResult R} (r : R) : Prop :=
  lastCommitOf r = step_commit <$> last (steps r).

(** ** Thrown values and settled promises *)

(** What a call can throw or reject with. [err instanceof CycleDetectedError]
    is the only test the code makes on it. A [TypeError] is what the
    language throws for a call of something that is not a function. *)
Inductive Thrown :=
| CycleDetectedError (message : string)
| Error (message : string)
| TypeError (message : string).

Definition instanceof_CycleDetectedError (err : Thrown) : bool :=
  match err with
  | CycleDetectedError _ => true
  | Error _ => false
  | TypeError _ => false
  end.

(** How an awaited call of a collaborator settles. *)
Inductive Settled (A : Type) :=
| Fulfilled (value : A)
| RejectedWith (err : Thrown).
Arguments Fulfilled {A} value.
Arguments RejectedWith {A} err.

(** ** Property lookup on plain objects *)

(** The names of the properties of [Object.prototype], which every object
    made by an object literal or by parsing inherits. *)
Definition inheritedNames : list string :=
  ["constructor"; "__defineGetter__"; "__defineSetter__"; "hasOwnProperty";
   "__lookupGetter__"; "__lookupSetter__"; "isPrototypeOf"; "propertyIsEnumerable";
   "toString"; "valueOf"; "__proto__"; "toLocaleString"].

Definition inherited (key : string) : bool := bool_decide (key ∈ inheritedNames).

(** What [object[key]] yields on a record: the array stored under the own
    property [key]; or an inherited member of [Object.prototype], a function
    or, for [__proto__], the prototype itself: truthy, and with neither
    [push] nor [concat]; or [undefined]. *)
Inductive Property (A : Type) :=
| OwnArray (array : list A)
| InheritedMember
| Undefined.
Arguments OwnArray {A} array.
Arguments InheritedMember {A}.
Arguments Undefined {A}.

Definition get {A : Type} (object : gmap string (list A)) (key : string) : Property A :=
  match object !! key with
  | Some array => OwnArray array
  | None => if inherited key then InheritedMember else Undefined
  end.

(** Whether [object[key]] is an inherited member. *)
Definition blocks {A : Type} (object : gmap string (list A)) (key : string) : bool :=
  match get object key with
  | InheritedMember => true
  | _ => false
  end.

(** A call that mutates an argument: what it throws, if anything, and the
    argument after the call. *)
Record Mutated (S : Type) := mkMutated {
  thrown : option Thrown;
  after : S;
}.
Arguments mkMutated {S} thrown after.
Arguments thrown {S} m.
Arguments after {S} m.

(** ** [pushRefactorFileResults] *)

(** Lines 298-303. [array.push] on an inherited member throws and leaves
    the record as it was. *)
Definition pushRefactorFileResults_call (result : RefactorResult)
    (into : gmap string (list RefactorResult))
    : Mutated (gmap string (list RefactorResult)) :=
  match get into (filePath result) with
  | OwnArray array => mkMutated None (<[filePath result := array ++ [result]]> into)
  | InheritedMember => mkMutated (Some (TypeError "array.push is not a function")) into
  | Undefined => mkMutated None (<[filePath result := [result]]> into)
  end.

(** The record after the call. *)
Definition pushRefactorFileResults (result : RefactorResult)
    (into : gmap string (list RefactorResult)) : gmap string (list RefactorResult) :=
  after (pushRefactorFileResults_call result into).

(** What the call throws. *)
Definition pushRefactorFileResults_throws (result : RefactorResult)
    (into : gmap string (list RefactorResult)) : option Thrown :=
  thrown (pushRefactorFileResults_call result into).

(** ** [mutateToMergeRefactorRecords] *)

(** The body of the [for ... of Object.entries(opts.from)] loop, lines
    311-316. [existing.concat] on an inherited member throws and leaves the
    record as it was. *)
Definition mergeEntry {A : Type} (into : gmap string (list A))
    (entry : string * list A) : Mutated (gmap string (list A)) :=
  let '(file, tasks) := entry in
  match get into file with
  | OwnArray existing => mkMutated None (<[file := existing ++ tasks]> into)
  | InheritedMember => mkMutated (Some (TypeError "existing.concat is not a function")) into
  | Undefined => mkMutated None (<[file := tasks]> into)
  end.

(** The loop over an array of entries: it stops at the first entry that
    throws, with the entries before it merged. *)
Fixpoint mergeEntries {A : Type} (into : gmap string (list A))
    (fromEntries : list (string * list A)) : Mutated (gmap string (list A)) :=
  match fromEntries with
  | [] => mkMutated None into
  | entry :: rest =>
      let step := mergeEntry into entry in
      match thrown step with
      | Some err => step
      | None => mergeEntries (after step) rest
      end
  end.

(** [Object.entries] is taken once, before the loop: the own entries of
    [from], each key once. The order in which [map_to_list] lists them
    stands for the order of [Object.entries]; it bears only on which entries
    are already merged when the loop throws (see [mergeEntries_any_order]). *)
Definition mutateToMergeRefactorRecords_call {A : Type}
    (from into : gmap string (list A)) : Mutated (gmap string (list A)) :=
  mergeEntries into (map_to_list from).

(** The record [into] after the call. *)
Definition mutateToMergeRefactorRecords {A : Type}
    (from into : gmap string (list A)) : gmap string (list A) :=
  after (mutateToMergeRefactorRecords_call from into).

(** What the call throws. *)
Definition mutateToMergeRefactorRecords_throws {A : Type}
    (from into : gmap string (list A)) : option Thrown :=
  thrown (mutateToMergeRefactorRecords_call from into).

(** Lines 324-331: the accepted records are merged, then the discarded
    ones; when the first merge throws the second is not made. *)
Definition mutateToMergeRefactorFilesResults_call
    (from into : RefactorFilesResult) : Mutated RefactorFilesResult :=
  let accepted' := mutateToMergeRefactorRecords_call (accepted from) (accepted into) in
  match thrown accepted' with
  | Some err =>
      mkMutated (Some err)
        {| accepted := after accepted'; discarded := discarded into |}
  | None =>
      let discarded' :=
        mutateToMergeRefactorRecords_call (discarded from) (discarded into) in
      mkMutated (thrown discarded')
        {| accepted := after accepted'; discarded := after discarded' |}
  end.

(** The result [into] after the call. *)
Definition mutateToMergeRefactorFilesResults
    (from into : RefactorFilesResult) : RefactorFilesResult :=
  after (mutateToMergeRefactorFilesResults_call from into).

(** What the call throws. *)
Definition mutateToMergeRefactorFilesResults_throws
    (from into : RefactorFilesResult) : option Thrown :=
  thrown (mutateToMergeRefactorFilesResults_call from into).

(** [merge a b]: the value of [a] after merging [b] into it. *)
Definition merge (a b : RefactorFilesResult) : RefactorFilesResult :=
  mutateToMergeRefactorFilesResults b a.

Definition emptyFilesResult : RefactorFilesResult :=
  {| accepted := ∅; discarded := ∅ |}.

(** ** Configuration ([refactorConfigSchema], [scriptSchema]) *)

Inductive OutputChannel := stdout | stderr.

Record Script := mkScript {
  args : list string;
  parse : OutputChannel;
  supportsFileFiltering : bool;
}.

(** The fields of [refactorConfigSchema] other than [objective]. The code
    below passes them on without reading them; [budgetCents] is a number of
    cents. *)
Record RefactorConfig := mkRefactorConfig {
  name : string;
  repository : option string;
  ref : option string;
  allowDirtyWorkingTree : option bool;
  budgetCents : option Z;
  bootstrapScripts : option (list string);
  model : option string;
  modelByStepCode : option (gmap string string);
  useMoreExpensiveModelsOnRetry : option (gmap string string);
  lintScripts : option (list Script);
  testScripts : option (list Script);
}.

(** ** [enrichObjective] *)

Record enrichObjectiveInput := mkEnrichObjectiveInput {
  enrich_objective : string;
  enrich_sandboxDirectoryPath : string;
  enrich_config : RefactorConfig;
}.

Record EnrichObjectiveResponse := mkEnrichObjectiveResponse {
  enrichedObjective : string;
}.

Section EnrichObjective.
(** The state of everything outside the function: the working tree, the
    cache, the model service. *)
Context {W : Type}.

(** The message type of [promptWithFunctions] is declared in another
    module; [transform] reads three things of a message. *)
Context {Message : Type}.
(** [message.role] *)
Variable role : Message → string.
(** ['functionCall' in message] *)
Variable functionCall_in : Message → bool.
(** [message.content], a string on every message without [functionCall] *)
Variable content : Message → string.

(** [String.prototype.trim] *)
Variable trim : string → string.

(** Lines 60-80: [promptWithFunctions.withPersistence().transform(...)] on
    the arguments built from [input], with everything awaited on the way;
    the [messages] of its result. *)
Variable prompt : enrichObjectiveInput → W → Settled (list Message) * W.

(** Lines 82-98, on the messages the prompt step returned. *)
Definition enrichFromMessages (input : enrichObjectiveInput)
    (messages : list Message) : Settled EnrichObjectiveResponse :=
  match array_get messages (Z.of_nat (length messages) - 1)%Z with
  | None => RejectedWith (Error "No messages found after prompt")
  | Some lastMessage =>
      if negb (String.eqb (role lastMessage) "assistant") then
        RejectedWith (Error "Expected last message to be from assistant")
      else if functionCall_in lastMessage then
        RejectedWith (Error "Expected last message to not be a function-call")
      else
        Fulfilled
          {| enrichedObjective :=
               join (newline +:+ newline)
                 [trim (enrich_objective input); trim (content lastMessage)] |}
  end.

(** The three conditions under which lines 82-91 throw. *)
Definition enrich_throws (messages : list Message) : Prop :=
  messages = [] ∨
  (∃ lastMessage, last messages = Some lastMessage ∧ role lastMessage ≠ "assistant") ∨
  (∃ lastMessage, last messages = Some lastMessage ∧ functionCall_in lastMessage = true).

Definition enrichObjective (input : enrichObjectiveInput) (w : W)
    : Settled EnrichObjectiveResponse * W :=
  let '(prompted, w') := prompt input w in
  match prompted with
  | Fulfilled messages => (enrichFromMessages input messages, w')
  | RejectedWith err => (RejectedWith err, w')
  end.
End EnrichObjective.

(** ** [planAndRefactor] *)

Record planAndRefactorInput := mkPlanAndRefactorInput {
  objective : string;
  startCommit : string;
  sandboxDirectoryPath : string;
  scripts : list Script;
  filesToEdit : list string;
  config : RefactorConfig;
}.

(** [planFilesResultSchema] as [planAndRefactor] builds its values. *)
Record PlanFilesResult := mkPlanFilesResult {
  plannedFiles : list string;
  rawResponse : string;
}.

(** [planAndRefactorResultSchema]: [{ ...files, planFilesResults }]. *)
Record planAndRefactorResult := mkPlanAndRefactorResult {
  files : RefactorFilesResult;
  planFilesResults : list PlanFilesResult;
}.

(** The actions [planAndRefactor] dispatches are all made by the action
    creator [planFilesComplete] from a plan result. *)
Inductive Action :=
| planFilesComplete (planResult : PlanFilesResult).

(** What a run does, in program order. Awaited calls are recorded with the
    way they settled; [Merged from] records that the merge of [from] into
    the accumulator was called (line 66): when it throws, the event is the
    last of the run and the run rejects. *)
Inductive Event :=
| PlanFilesCalled (settled : Settled PlanFilesResult)
| RefactorBatchCalled (plannedFiles : list string) (settled : Settled RefactorFilesResult)
| ResetToLastAcceptedCommitCalled (location : string) (result : RefactorFilesResult)
    (settled : Settled unit)
| Merged (from : RefactorFilesResult)
| Warned (err : Thrown) (result : RefactorFilesResult)
| Dispatched (action : Action).

(** How a run of a function with a loop ends; [OutOfFuel] when the loop
    needs more iterations than the fuel given. *)
Inductive Outcome (A : Type) :=
| Returned (value : A)
| Rejected (err : Thrown)
| OutOfFuel.
Arguments Returned {A} value.
Arguments Rejected {A} err.
Arguments OutOfFuel {A}.

Record Run (W A : Type) := mkRun {
  outcome : Outcome A;
  world : W;
  events : list Event;
}.
Arguments mkRun {W A} outcome world events.
Arguments outcome {W A} r.
Arguments world {W A} r.
Arguments events {W A} r.

(** Computations on the world that may reject and that record events. *)
Definition M (W A : Type) : Type := W → Run W A.

Definition ret {W A : Type} (a : A) : M W A :=
  λ w, mkRun (Returned a) w [].

Definition reject {W A : Type} (err : Thrown) : M W A :=
  λ w, mkRun (Rejected err) w [].

Definition outOfFuel {W A : Type} : M W A :=
  λ w, mkRun OutOfFuel w [].

Definition bind {W A B : Type} (m : M W A) (k : A → M W B) : M W B :=
  λ w,
    let r := m w in
    match outcome r with
    | Returned a =>
        let r' := k a (world r) in
        mkRun (outcome r') (world r') (events r ++ events r')
    | Rejected err => mkRun (Rejected err) (world r) (events r)
    | OutOfFuel => mkRun OutOfFuel (world r) (events r)
    end.

(** [promise.catch(handler)] *)
Definition catch {W A : Type} (m : M W A) (handler : Thrown → M W A) : M W A :=
  λ w,
    let r := m w in
    match outcome r with
    | Rejected err =>
        let r' := handler err (world r) in
        mkRun (outcome r') (world r') (events r ++ events r')
    | _ => r
    end.

(** [await f(...)] on a collaborator [f], recorded as [event]. *)
Definition await {W A : Type} (f : W → Settled A * W) (event : Settled A → Event)
    : M W A :=
  λ w,
    let '(settled, w') := f w in
    mkRun (match settled with
           | Fulfilled a => Returned a
           | RejectedWith err => Rejected err
           end) w' [event settled].

(** A call that cannot throw, recorded as [event]. *)
Definition perform {W : Type} (f : W → W) (event : Event) : M W unit :=
  λ w, mkRun (Returned tt) (f w) [event].

(** A call that mutates a local value and may throw: the value after the
    call when it returns. *)
Definition mutate {W S : Type} (call : Mutated S) : M W S :=
  match thrown call with
  | Some err => reject err
  | None => ret (after call)
  end.

Declare Scope run_scope.
Delimit Scope run_scope with run.
Notation "'let!' x ':=' m 'in' k" := (bind m (λ x, k))
  (at level 10, x name, m at level 100, k at level 200) : run_scope.
Notation "m ';;' k" := (bind m (λ _, k))
  (at level 100, k at level 200, right associativity) : run_scope.

Definition emptyPlan : PlanFilesResult :=
  {| plannedFiles := []; rawResponse := "" |}.

(** The planning calls of a trace with the way each settled, the actions
    dispatched, and the results of the batches that completed, in order. *)
Fixpoint planning_calls (trace : list Event) : list (Settled PlanFilesResult) :=
  match trace with
  | [] => []
  | PlanFilesCalled settled :: trace' => settled :: planning_calls trace'
  | _ :: trace' => planning_calls trace'
  end.

Fixpoint dispatched (trace : list Event) : list Action :=
  match trace with
  | [] => []
  | Dispatched action :: trace' => action :: dispatched trace'
  | _ :: trace' => dispatched trace'
  end.

Fixpoint batch_results (trace : list Event) : list RefactorFilesResult :=
  match trace with
  | [] => []
  | RefactorBatchCalled _ (Fulfilled result) :: trace' => result :: batch_results trace'
  | _ :: trace' => batch_results trace'
  end.

(** The plan the loop goes on with after a planning call that did not abort
    the run. *)
Definition plan_of (settled : Settled PlanFilesResult) : PlanFilesResult :=
  match settled with
  | Fulfilled planResult => planResult
  | RejectedWith _ => emptyPlan
  end.

(** Batch results merged one after the other into [into]. *)
Definition accumulate (into : RefactorFilesResult) (results : list RefactorFilesResult)
    : RefactorFilesResult :=
  foldl merge into results.

Section PlanAndRefactor.
Context {W : Type}.

(** The collaborators, imported from other modules. Each acts on the world;
    the awaited ones may reject. *)
Variable planFiles : planAndRefactorInput → W → Settled PlanFilesResult * W.
Variable refactorBatch :
  list string → planAndRefactorInput → W → Settled RefactorFilesResult * W.
Variable resetToLastAcceptedCommit :
  string → RefactorFilesResult → W → Settled unit * W.
(** [logger.warn] and [deps.dispatch] return nothing and are taken not to
    throw. *)
Variable logger_warn : Thrown → RefactorFilesResult → W → W.
Variable dispatch : Action → W → W.

Local Open Scope run_scope.

(** Lines 71-91: [planFiles(input).catch(...)]. *)
Definition replan (input : planAndRefactorInput) (result : RefactorFilesResult)
    : M W PlanFilesResult :=
  catch (await (planFiles input) PlanFilesCalled)
    (λ err,
       if instanceof_CycleDetectedError err then
         perform (logger_warn err result) (Warned err result) ;;
         ret emptyPlan
       else reject err).

(** Lines 55-111: the [while] loop and the [return] after it. [fuel]
    bounds the number of iterations. *)
Fixpoint while_plannedFiles (fuel : nat) (input : planAndRefactorInput)
    (plannedFiles0 : list string) (files0 : RefactorFilesResult)
    (planFilesResults0 : list PlanFilesResult) : M W planAndRefactorResult :=
  if decide (0 < length plannedFiles0)%nat then
    match fuel with
    | O => outOfFuel
    | S fuel' =>
        let! result :=
          await (refactorBatch plannedFiles0 input)
            (RefactorBatchCalled plannedFiles0) in
        await (resetToLastAcceptedCommit (sandboxDirectoryPath input) result)
          (ResetToLastAcceptedCommitCalled (sandboxDirectoryPath input) result) ;;
        let! files1 :=
          (perform id (Merged result) ;;
           mutate (mutateToMergeRefactorFilesResults_call result files0)) in
        let! repeatedPlanResult := replan input result in
        perform (dispatch (planFilesComplete repeatedPlanResult))
          (Dispatched (planFilesComplete repeatedPlanResult)) ;;
        let plannedFiles1 :=
          splice 0 (length plannedFiles0) (plannedFiles repeatedPlanResult)
            plannedFiles0 in
        let planFilesResults1 :=
          planFilesResults0 ++
            [{| plannedFiles := plannedFiles repeatedPlanResult;
                rawResponse := rawResponse repeatedPlanResult |}] in
        while_plannedFiles fuel' input plannedFiles1 files1 planFilesResults1
    end
  else
    ret {| files := files0; planFilesResults := planFilesResults0 |}.

Definition planAndRefactor (fuel : nat) (input : planAndRefactorInput)
    : M W planAndRefactorResult :=
  let files0 := {| accepted := ∅; discarded := ∅ |} in
  let! planResult := await (planFiles input) PlanFilesCalled in
  perform (dispatch (planFilesComplete planResult))
    (Dispatched (planFilesComplete planResult)) ;;
  let planFilesResults0 :=
    [{| plannedFiles := plannedFiles planResult;
        rawResponse := rawResponse planResult |}] in
  while_plannedFiles fuel input (plannedFiles planResult) files0 planFilesResults0.

(** The runs of the loop, case by case: from the planned files, the
    accumulator, the planning records and the world at the loop head to
    the outcome, the final world and the events. *)
Inductive LoopRun (input : planAndRefactorInput) :
    list string → RefactorFilesResult → list PlanFilesResult → W →
    Run W planAndRefactorResult → Prop :=
| LoopExit files0 records w :
    LoopRun input [] files0 records w
      (mkRun (Returned {| files := files0; planFilesResults := records |}) w [])
| LoopOutOfFuel planned files0 records w :
    planned ≠ [] →
    LoopRun input planned files0 records w (mkRun OutOfFuel w [])
| LoopBatchRejected planned files0 records w err w1 :
    planned ≠ [] →
    refactorBatch planned input w = (RejectedWith err, w1) →
    LoopRun input planned files0 records w
      (mkRun (Rejected err) w1 [RefactorBatchCalled planned (RejectedWith err)])
| LoopResetRejected planned files0 records w result w1 err w2 :
    planned ≠ [] →
    refactorBatch planned input w = (Fulfilled result, w1) →
    resetToLastAcceptedCommit (sandboxDirectoryPath input) result w1 =
      (RejectedWith err, w2) →
    LoopRun input planned files0 records w
      (mkRun (Rejected err) w2
         [RefactorBatchCalled planned (Fulfilled result);
          ResetToLastAcceptedCommitCalled (sandboxDirectoryPath input) result
            (RejectedWith err)])
| LoopPlanRejected planned files0 records w result w1 u w2 err w3 :
    planned ≠ [] →
    refactorBatch planned input w = (Fulfilled result, w1) →
    resetToLastAcceptedCommit (sandboxDirectoryPath input) result w1 =
      (Fulfilled u, w2) →
    mutateToMergeRefactorFilesResults_throws result files0 = None →
    planFiles input w2 = (RejectedWith err, w3) →
    instanceof_CycleDetectedError err = false →
    LoopRun input planned files0 records w
      (mkRun (Rejected err) w3
         [RefactorBatchCalled planned (Fulfilled result);
          ResetToLastAcceptedCommitCalled (sandboxDirectoryPath input) result
            (Fulfilled u);
          Merged result;
          PlanFilesCalled (RejectedWith err)])
| LoopCycleDetected planned files0 records w result w1 u w2 err w3 :
    planned ≠ [] →
    refactorBatch planned input w = (Fulfilled result, w1) →
    resetToLastAcceptedCommit (sandboxDirectoryPath input) result w1 =
      (Fulfilled u, w2) →
    mutateToMergeRefactorFilesResults_throws result files0 = None →
    planFiles input w2 = (RejectedWith err, w3) →
    instanceof_CycleDetectedError err = true →
    LoopRun input planned files0 records w
      (mkRun
         (Returned {| files := mutateToMergeRefactorFilesResults result files0;
                      planFilesResults := records ++ [emptyPlan] |})
         (dispatch (planFilesComplete emptyPlan) (logger_warn err result w3))
         [RefactorBatchCalled planned (Fulfilled result);
          ResetToLastAcceptedCommitCalled (sandboxDirectoryPath input) result
            (Fulfilled u);
          Merged result;
          PlanFilesCalled (RejectedWith err);
          Warned err result;
          Dispatched (planFilesComplete emptyPlan)])
| LoopNext planned files0 records w result w1 u w2 planResult w3 next :
    planned ≠ [] →
    refactorBatch planned input w = (Fulfilled result, w1) →
    resetToLastAcceptedCommit (sandboxDirectoryPath input) result w1 =
      (Fulfilled u, w2) →
    mutateToMergeRefactorFilesResults_throws result files0 = None →
    planFiles input w2 = (Fulfilled planResult, w3) →
    LoopRun input (plannedFiles planResult)
      (mutateToMergeRefactorFilesResults result files0) (records ++ [planResult])
      (dispatch (planFilesComplete planResult) w3) next →
    LoopRun input planned files0 records w
      (mkRun (outcome next) (world next)
         (RefactorBatchCalled planned (Fulfilled result)
          :: ResetToLastAcceptedCommitCalled (sandboxDirectoryPath input) result
               (Fulfilled u)
          :: Merged result
          :: PlanFilesCalled (Fulfilled planResult)
          :: Dispatched (planFilesComplete planResult)
          :: events next))
| LoopMergeThrew planned files0 records w result w1 u w2 err :
    planned ≠ [] →
    refactorBatch planned input w = (Fulfilled result, w1) →
    resetToLastAcceptedCommit (sandboxDirectoryPath input) result w1 =
      (Fulfilled u, w2) →
    mutateToMergeRefactorFilesResults_throws result files0 = Some err →
    LoopRun input planned files0 records w
      (mkRun (Rejected err) w2
         [RefactorBatchCalled planned (Fulfilled result);
          ResetToLastAcceptedCommitCalled (sandboxDirectoryPath input) result
            (Fulfilled u);
          Merged result]).

(** The cycle scenario as the specification words it: the planner returns
    ["a"; "b"] on the first call and again on the second, no call rejects,
    and the run returns after the second planning call with the results
    of the first batch only. *)
Definition returns_after_repeated_plan (input : planAndRefactorInput) (w : W) : Prop :=
  ∀ plan1 w1 result w2 u w3 plan2 w4,
    planFiles input w = (Fulfilled plan1, w1) →
    plannedFiles plan1 = ["a"; "b"] →
    refactorBatch ["a"; "b"] input (dispatch (planFilesComplete plan1) w1) =
      (Fulfilled result, w2) →
    resetToLastAcceptedCommit (sandboxDirectoryPath input) result w2 =
      (Fulfilled u, w3) →
    planFiles input w3 = (Fulfilled plan2, w4) →
    plannedFiles plan2 = ["a"; "b"] →
    ∃ fuel value,
      outcome (planAndRefactor fuel input w) = Returned value ∧
      files value = merge emptyFilesResult result ∧
      length (planning_calls (events (planAndRefactor fuel input w))) = 2.
End PlanAndRefactor.

(** ** Scripted collaborators

    A world in which the planner and the batch refactorer answer from a
    script, one entry per call; resetting, logging and dispatching leave the
    script alone. *)
Module Scripted.
Record World := mkWorld {
  plans : list (Settled PlanFilesResult);
  batches : list (Settled RefactorFilesResult);
}.

Definition planFiles (_ : planAndRefactorInput) (w : World)
    : Settled PlanFilesResult * World :=
  match plans w with
  | [] => (Fulfilled emptyPlan, w)
  | settled :: rest => (settled, {| plans := rest; batches := batches w |})
  end.

Definition refactorBatch (_ : list string) (_ : planAndRefactorInput) (w : World)
    : Settled RefactorFilesResult * World :=
  match batches w with
  | [] => (Fulfilled emptyFilesResult, w)
  | settled :: rest => (settled, {| plans := plans w; batches := rest |})
  end.

Definition resetToLastAcceptedCommit (_ : string) (_ : RefactorFilesResult) (w : World)
    : Settled unit * World :=
  (Fulfilled tt, w).

Definition logger_warn (_ : Thrown) (_ : RefactorFilesResult) (w : World) : World := w.

Definition dispatch (_ : Action) (w : World) : World := w.

Definition planAndRefactor (fuel : nat) (input : planAndRefactorInput)
    : M World planAndRefactorResult :=
  planAndRefactor planFiles refactorBatch resetToLastAcceptedCommit logger_warn
    dispatch fuel input.

Definition defaults : RefactorConfig :=
  {| name := "rename"; repository := None; ref := None;
     allowDirtyWorkingTree := None; budgetCents := None;
     bootstrapScripts := None; model := None; modelByStepCode := None;
     useMoreExpensiveModelsOnRetry := None; lintScripts := None;
     testScripts := None |}.

Definition input : planAndRefactorInput :=
  {| objective := "rename f to g"; startCommit := "c0";
     sandboxDirectoryPath := "/repo"; scripts := []; filesToEdit := [];
     config := defaults |}.

Definition planAB : PlanFilesResult :=
  {| plannedFiles := ["a"; "b"]; rawResponse := "1. a 2. b" |}.

Definition step (file commitId : string) : RefactorStepResult :=
  {| task := "edit"; fileContents := file; step_commit := commitId |}.

Definition success (file commitId : string) : RefactorResult :=
  Success
    {| success_filePath := file; success_issues := [];
       success_steps := [step file commitId];
       success_lastCommit := lastCommit [step file commitId] |}.

Definition failure (file : string) : RefactorFailedResult :=
  {| failureDescription := "lint"; failure_filePath := file; failure_issues := [];
     failure_steps := []; failure_lastCommit := None |}.

(** [a] accepted at commit [c1], [b] discarded. *)
Definition batch1 : RefactorFilesResult :=
  {| accepted := {[ "a" := [success "a" "c1"] ]};
     discarded := {[ "b" := [failure "b"] ]} |}.

(** [a] accepted again at commit [c2]. *)
Definition batch2 : RefactorFilesResult :=
  {| accepted := {[ "a" := [success "a" "c2"] ]}; discarded := ∅ |}.

(** The planner repeats its plan without a signal, then plans nothing. *)
Definition repeating : World :=
  {| plans := [Fulfilled planAB; Fulfilled planAB; Fulfilled emptyPlan];
     batches := [Fulfilled batch1; Fulfilled batch2] |}.

(** The planner signals a cycle on the second call. *)
Definition cycling : World :=
  {| plans := [Fulfilled planAB; RejectedWith (CycleDetectedError "cycle")];
     batches := [Fulfilled batch1] |}.

(** The planner fails on the second call. *)
Definition failing : World :=
  {| plans := [Fulfilled planAB; RejectedWith (Error "network")];
     batches := [Fulfilled batch1] |}.

(** The planner plans nothing on the second call. *)
Definition finishing : World :=
  {| plans := [Fulfilled planAB; Fulfilled emptyPlan];
     batches := [Fulfilled batch1] |}.
End Scripted.

(** ** A scripted prompt step

    Messages as records of the three things read, [trim] on strings in
    UTF-8, and a prompt step that answers from the world. *)
Module Chat.
Record Message := mkMessage {
  role : string;
  functionCall_in : bool;
  content : string;
}.

(** Strings are read as UTF-8. The white space and line terminators that
    [String.prototype.trim] strips are U+0009 to U+000D and U+0020, one byte
    each, and U+00A0, U+1680, U+2000 to U+200A, U+2028, U+2029, U+202F,
    U+205F, U+3000 and U+FEFF, two or three bytes each. *)
Definition bytes (s : string) : list nat :=
  Ascii.nat_of_ascii <$> Stdlib.Strings.String.list_ascii_of_string s.

(** The number of bytes of the white space character at the head of a list
    of bytes, 0 when there is none. *)
Definition spaceAtHead (bs : list nat) : nat :=
  match bs with
  | 9 :: _ | 10 :: _ | 11 :: _ | 12 :: _ | 13 :: _ | 32 :: _ => 1
  | 194 :: 160 :: _ => 2
  | 225 :: 154 :: 128 :: _ => 3
  | 226 :: 128 :: third :: _ =>
      if bool_decide (128 ≤ third ≤ 138 ∨ third = 168 ∨ third = 169 ∨ third = 175)%nat
      then 3 else 0
  | 226 :: 129 :: 159 :: _ => 3
  | 227 :: 128 :: 128 :: _ => 3
  | 239 :: 187 :: 191 :: _ => 3
  | _ => 0
  end%nat.

(** The same at the end of a list of bytes given in reverse. *)
Definition spaceAtEnd (reversed : list nat) : nat :=
  match reversed with
  | 9 :: _ | 10 :: _ | 11 :: _ | 12 :: _ | 13 :: _ | 32 :: _ => 1
  | 160 :: 194 :: _ => 2
  | 128 :: 154 :: 225 :: _ => 3
  | 159 :: 129 :: 226 :: _ => 3
  | 128 :: 128 :: 227 :: _ => 3
  | 191 :: 187 :: 239 :: _ => 3
  | third :: 128 :: 226 :: _ =>
      if bool_decide (128 ≤ third ≤ 138 ∨ third = 168 ∨ third = 169 ∨ third = 175)%nat
      then 3 else 0
  | _ => 0
  end%nat.

Fixpoint strip (space : list nat → nat) (fuel : nat) (bs : list nat) : list nat :=
  match fuel with
  | O => bs
  | S fuel' =>
      match space bs with
      | O => bs
      | n => strip space fuel' (drop n bs)
      end
  end.

Definition trimStart (bs : list nat) : list nat := strip spaceAtHead (length bs) bs.

Definition trimEnd (bs : list nat) : list nat :=
  reverse (strip spaceAtEnd (length bs) (reverse bs)).

Definition trim (s : string) : string :=
  Stdlib.Strings.String.string_of_list_ascii
    (Ascii.ascii_of_nat <$> trimEnd (trimStart (bytes s))).

(** The world is what the prompt step will settle with. *)
Definition prompt (_ : enrichObjectiveInput) (w : Settled (list Message))
    : Settled (list Message) * Settled (list Message) :=
  (w, w).

Definition enrichObjective (input : enrichObjectiveInput) (w : Settled (list Message))
    : Settled EnrichObjectiveResponse * Settled (list Message) :=
  enrichObjective role functionCall_in content trim prompt input w.

Definition input : enrichObjectiveInput :=
  {| enrich_objective := " rename f to g " +:+ newline;
     enrich_sandboxDirectoryPath := "/repo";
     enrich_config := Scripted.defaults |}.

Definition answered : list Message :=
  [ {| role := "user"; functionCall_in := false; content := "rename f to g" |};
    {| role := "assistant"; functionCall_in := false;
       content := newline +:+ "f is used in a.ts. " |} ].
End Chat.

(** ** Further observers of records and traces *)

(** Every result of a record is filed under its own [filePath]. *)
Definition keyed {A : Type} `{FileResult A} (record : gmap string (list A)) : Prop :=
  ∀ key results, record !! key = Some results → Forall (λ r, filePath r = key) results.

(** The planned files each call of [refactorBatch] was given, in order. *)
Fixpoint batch_calls (trace : list Event) : list (list string) :=
  match trace with
  | [] => []
  | RefactorBatchCalled planned _ :: trace' => planned :: batch_calls trace'
  | _ :: trace' => batch_calls trace'
  end.

(** ** [references]

    [Map] objects are lists of entries in insertion order: [map.size] is the
    length and [map.values()] the second components. *)

(** Whether a value of type [string | undefined] is truthy: a non-empty
    string. *)
Definition truthy (value : option string) : bool :=
  match value with
  | Some (String _ _) => true
  | _ => false
  end.

Section References.
Context {W Project Args K FileReferences Reference : Type}.

(** [FileReferences] and its references are declared in another module;
    [references] reads three things of them. *)
(** [file.package] *)
Variable package : FileReferences → option string.
(** [file.references] *)
Variable file_references : FileReferences → list Reference.
(** [ref.module] *)
Variable module_of : Reference → option string.

Variable languageServiceReferences :
  Project → Args → W → Settled (list (K * FileReferences)) * W.
(** [nodeBuiltinReferences(project, { ...args, module, alreadyFoundFiles })] *)
Variable nodeBuiltinReferences :
  Project → Args → string → list (K * FileReferences) → W →
  Settled (list (K * FileReferences)) * W.

(** [Array.from(map.values()).map((entry) => entry)] *)
Definition values_of (map : list (K * FileReferences)) : list FileReferences :=
  (λ entry, entry) <$> map.*2.

(** [nodeBuiltin.references.find((ref) => ref.module)?.module] *)
Definition moduleName_of (nodeBuiltin : FileReferences) : option string :=
  match find (λ ref, truthy (module_of ref)) (file_references nodeBuiltin) with
  | Some ref => module_of ref
  | None => None
  end.

Definition references (project : Project) (args : Args) (w : W)
    : Settled (list FileReferences) * W :=
  match languageServiceReferences project args w with
  | (RejectedWith err, w1) => (RejectedWith err, w1)
  | (Fulfilled initialRefs, w1) =>
      let otherwise := (Fulfilled (values_of initialRefs), w1) in
      if decide (length initialRefs ≤ 2)%nat then
        match
          find (λ file, bool_decide (package file = Some "@types/node"))
            initialRefs.*2
        with
        | Some nodeBuiltin =>
            let moduleName := moduleName_of nodeBuiltin in
            if truthy moduleName then
              match moduleName with
              | Some name =>
                  match nodeBuiltinReferences project args name initialRefs w1 with
                  | (Fulfilled result, w2) => (Fulfilled (values_of result), w2)
                  | (RejectedWith err, w2) => (RejectedWith err, w2)
                  end
              | None => otherwise
              end
            else otherwise
        | None => otherwise
        end
      else otherwise
  end.
End References.

(** ** Further scripted collaborators *)
Module Scenarios.
(** A reset that fails. *)
Definition resetRejecting (_ : string) (_ : RefactorFilesResult) (w : Scripted.World)
    : Settled unit * Scripted.World :=
  (RejectedWith (Error "git reset failed"), w).

Definition planAndRefactorResetRejecting (fuel : nat) (input : planAndRefactorInput)
    : M Scripted.World planAndRefactorResult :=
  planAndRefactor Scripted.planFiles Scripted.refactorBatch resetRejecting
    Scripted.logger_warn Scripted.dispatch fuel input.

(** The planner signals a cycle on the first call. *)
Definition cycleFirst : Scripted.World :=
  Scripted.mkWorld [RejectedWith (CycleDetectedError "cycle")] [].

(** The planner plans nothing on the first call. *)
Definition idle : Scripted.World :=
  Scripted.mkWorld [Fulfilled emptyPlan] [Fulfilled Scripted.batch1].

(** The first batch fails. *)
Definition batchFailing : Scripted.World :=
  Scripted.mkWorld [Fulfilled Scripted.planAB; Fulfilled emptyPlan]
    [RejectedWith (Error "budget")].

(** A file at the root of the repository whose name is the name of a
    member of [Object.prototype], accepted by a batch. *)
Definition constructorFile : RefactorResult := Scripted.success "constructor" "c1".

Definition constructorBatch : RefactorFilesResult :=
  {| accepted := {[ "constructor" := [constructorFile] ]}; discarded := ∅ |}.

(** The batch refactorer accepts that file. *)
Definition constructorAccepted : Scripted.World :=
  Scripted.mkWorld
    [Fulfilled {| plannedFiles := ["constructor"]; rawResponse := "1. constructor" |};
     Fulfilled emptyPlan]
    [Fulfilled constructorBatch].

(** Files with their references, as [references] reads them. *)
Record Ref := mkRef { ref_excerpt : string; ref_module : option string }.

Record File := mkFile {
  file_path : string;
  file_package : option string;
  file_refs : list Ref;
}.

(** The world is the call log of [nodeBuiltinReferences]: the module names
    it was asked for. *)
Definition languageService (files : list (string * File)) (_ : unit) (_ : unit)
    (log : list string) : Settled (list (string * File)) * list string :=
  (Fulfilled files, log).

Definition nodeBuiltin (_ : unit) (_ : unit) (name : string)
    (alreadyFoundFiles : list (string * File)) (log : list string)
    : Settled (list (string * File)) * list string :=
  (Fulfilled
     (alreadyFoundFiles ++ [("src/b.ts", mkFile "src/b.ts" None [mkRef "readFile" None])]),
   log ++ [name]).

Definition references (files : list (string * File)) (log : list string)
    : Settled (list File) * list string :=
  references file_package file_refs ref_module (languageService files) nodeBuiltin
    tt tt log.

Definition fsTypes : File :=
  mkFile "node_modules/@types/node/fs.d.ts" (Some "@types/node")
    [mkRef "declare" None; mkRef "empty" (Some ""); mkRef "readFile" (Some "fs")].

Definition user : File := mkFile "src/a.ts" None [mkRef "readFile" None].

Definition pathTypes : File :=
  mkFile "node_modules/@types/node/path.d.ts" (Some "@types/node") [mkRef "join" None].
End Scenarios.

(** * Properties *)

(** ** Arrays *)

Lemma array_get_last {A : Type} (array : list A) :
  array_get array (Z.of_nat (length array) - 1)%Z = last array.
Proof.
  unfold array_get. destruct array as [|x array _] using rev_ind.
  - reflexivity.
  - rewrite length_app, last_snoc. simpl.
    case_decide; [|lia].
    replace (Z.to_nat (Z.of_nat (length array + 1) - 1)) with (length array) by lia.
    by rewrite lookup_app_r, Nat.sub_diag.
Qed.

Lemma splice_all {A : Type} (items array : list A) :
  splice 0 (length array) items array = items.
Proof.
  unfold splice. simpl. rewrite drop_all. apply app_nil_r.
Qed.

Example array_get_examples :
  array_get ["x"; "y"] 1 = Some "y" ∧
  array_get ["x"; "y"] 2 = None ∧
  array_get (@nil string) (-1) = None.
Proof. by vm_compute. Qed.

Example splice_example :
  splice 1 2 ["p"; "q"] ["a"; "b"; "c"; "d"] = ["a"; "p"; "q"; "d"].
Proof. reflexivity. Qed.

Example join_example : join ", " ["a"; "b"; "c"] = "a, b, c".
Proof. reflexivity. Qed.

Example trim_example :
  Chat.trim (" rename f to g " +:+ newline) = "rename f to g".
Proof. reflexivity. Qed.

Example lastCommit_examples :
  lastCommit (@nil RefactorStepResult) = None ∧
  lastCommit [Scripted.step "a" "c1"; Scripted.step "a" "c2"] = Some "c2".
Proof. by vm_compute. Qed.

(** ** Records of results per file path *)

Lemma blocks_true {A : Type} (object : gmap string (list A)) (key : string) :
  blocks object key = true ↔ inherited key = true ∧ object !! key = None.
Proof.
  unfold blocks, get. destruct (object !! key), (inherited key); split;
    first [done | by intros [? ?]].
Qed.

Lemma blocks_own {A : Type} (object : gmap string (list A)) (key : string) :
  is_Some (object !! key) → blocks object key = false.
Proof. intros [array Harray]. unfold blocks, get. by rewrite Harray. Qed.

Lemma blocks_not_inherited {A : Type} (object : gmap string (list A)) (key : string) :
  inherited key = false → blocks object key = false.
Proof. intros Hkey. unfold blocks, get. rewrite Hkey. by destruct (object !! key). Qed.

Lemma blocks_insert_ne {A : Type} (object : gmap string (list A)) file array key :
  file ≠ key → blocks (<[file := array]> object) key = blocks object key.
Proof. intros Hne. unfold blocks, get. by rewrite lookup_insert_ne. Qed.

Lemma mergeEntry_thrown {A : Type} (into : gmap string (list A)) file tasks :
  thrown (mergeEntry into (file, tasks)) =
    if blocks into file then Some (TypeError "existing.concat is not a function")
    else None.
Proof. unfold mergeEntry, blocks. by destruct (get into file). Qed.

Lemma mergeEntry_after {A : Type} (into : gmap string (list A)) file tasks key :
  after (mergeEntry into (file, tasks)) !! key =
    if decide (file = key) then
      if blocks into file then into !! key else Some (entries into file ++ tasks)
    else into !! key.
Proof.
  unfold mergeEntry, blocks, get, entries.
  destruct (into !! file) as [existing|] eqn:Hfile; simpl.
  - rewrite lookup_insert. case_decide; congruence.
  - destruct (inherited file); simpl; [by case_decide|].
    rewrite lookup_insert. case_decide; congruence.
Qed.

Lemma mergeEntry_blocks_ne {A : Type} (into : gmap string (list A)) file tasks key :
  file ≠ key → blocks (after (mergeEntry into (file, tasks))) key = blocks into key.
Proof.
  intros Hne. unfold blocks at 1, get.
  rewrite mergeEntry_after, decide_False by done. reflexivity.
Qed.

(** A loop over entries with distinct keys none of which meets an inherited
    member completes, and merges every entry. *)
Lemma mergeEntries_completes {A : Type} (l : list (string * list A)) :
  NoDup l.*1 →
  ∀ into : gmap string (list A),
    Forall (λ entry, blocks into entry.1 = false) l →
    thrown (mergeEntries into l) = None ∧
    ∀ key,
      after (mergeEntries into l) !! key =
        union_with (λ a b, Some (a ++ b)) (into !! key)
          ((list_to_map l : gmap string (list A)) !! key).
Proof.
  induction l as [|[file tasks] l IH]; intros Hnodup into Hfree; cbn [mergeEntries].
  - split; [done|]. intros key. rewrite list_to_map_nil, lookup_empty.
    simpl. by destruct (into !! key).
  - rewrite fmap_cons in Hnodup. apply NoDup_cons in Hnodup as [Hfresh Hnodup].
    apply Forall_cons in Hfree as [Hfile Hfree]. simpl in Hfile.
    cbv zeta. rewrite mergeEntry_thrown, Hfile.
    destruct (IH Hnodup (after (mergeEntry into (file, tasks)))) as [Hthrown Hafter].
    { apply Forall_forall. intros [k t] Hin. cbn [fst].
      rewrite mergeEntry_blocks_ne.
      - by apply (proj1 (Forall_forall _ _) Hfree (k, t)).
      - intros ->. apply Hfresh. apply list_elem_of_fmap. by exists (k, t). }
    split; [done|]. intros key.
    rewrite Hafter, mergeEntry_after, Hfile, list_to_map_cons, lookup_insert.
    case_decide as Hkey.
    + subst key. rewrite (not_elem_of_list_to_map_1 _ _ Hfresh).
      unfold entries. by destruct (into !! file).
    + done.
Qed.

(** A loop over entries with distinct keys one of which meets an inherited
    member throws. *)
Lemma mergeEntries_throws {A : Type} (l : list (string * list A)) :
  NoDup l.*1 →
  ∀ into : gmap string (list A),
    Exists (λ entry, blocks into entry.1 = true) l →
    thrown (mergeEntries into l) =
      Some (TypeError "existing.concat is not a function").
Proof.
  induction l as [|[file tasks] l IH]; intros Hnodup into Hblocked; cbn [mergeEntries].
  - by apply Exists_nil in Hblocked.
  - rewrite fmap_cons in Hnodup. apply NoDup_cons in Hnodup as [Hfresh Hnodup].
    cbv zeta. rewrite mergeEntry_thrown.
    destruct (blocks into file) eqn:Hfile; [by rewrite mergeEntry_thrown, Hfile|].
    apply Exists_cons in Hblocked as [Hhead|Htail]; [simpl in Hhead; congruence|].
    apply IH; [done|].
    apply Exists_exists in Htail as ([k t] & Hin & Hk). simpl in Hk.
    apply Exists_exists. exists (k, t). split; [done|]. cbn [fst].
    rewrite mergeEntry_blocks_ne; [done|].
    intros ->. apply Hfresh. apply list_elem_of_fmap. by exists (k, t).
Qed.

(** The order of the entries does not bear on whether the loop throws, nor
    on the record after a loop that completes. *)
Lemma mergeEntries_any_order {A : Type} (from into : gmap string (list A))
    (l : list (string * list A)) :
  NoDup l.*1 →
  list_to_map l = from →
  thrown (mergeEntries into l) = mutateToMergeRefactorRecords_throws from into ∧
  (thrown (mergeEntries into l) = None →
   after (mergeEntries into l) = mutateToMergeRefactorRecords from into).
Proof.
  intros Hnodup Hfrom.
  unfold mutateToMergeRefactorRecords_throws, mutateToMergeRefactorRecords,
    mutateToMergeRefactorRecords_call.
  pose proof (NoDup_fst_map_to_list from) as Hnodup'.
  assert (Hsame : ∀ entry, entry ∈ l ↔ entry ∈ map_to_list from).
  { intros [k t]. rewrite elem_of_map_to_list, <- Hfrom.
    by rewrite <- elem_of_list_to_map. }
  destruct (decide (Exists (λ entry, blocks into entry.1 = true) l)) as [Hex|Hall].
  - rewrite (mergeEntries_throws l Hnodup into Hex). split; [|done].
    symmetry. apply mergeEntries_throws; [done|].
    apply Exists_exists in Hex as (entry & Hin & Hentry).
    apply Exists_exists. exists entry. split; [by apply Hsame|done].
  - apply not_Exists_Forall in Hall; [|intros entry; apply _].
    assert (Hfree : Forall (λ entry, blocks into entry.1 = false) l).
    { eapply Forall_impl; [exact Hall|]. intros entry Hentry. simpl in Hentry.
      by destruct (blocks into entry.1). }
    assert (Hfree' : Forall (λ entry, blocks into entry.1 = false) (map_to_list from)).
    { apply Forall_forall. intros entry Hin.
      by apply (proj1 (Forall_forall _ _) Hfree), Hsame. }
    destruct (mergeEntries_completes l Hnodup into Hfree) as [-> Hafter].
    destruct (mergeEntries_completes _ Hnodup' into Hfree') as [-> Hafter'].
    split; [done|]. intros _. apply map_eq. intros key.
    by rewrite Hafter, Hafter', Hfrom, list_to_map_to_list.
Qed.

(** [mutateToMergeRefactorRecords] throws exactly when an own key of [from]
    meets an inherited member of [into]. *)
Lemma mutateToMergeRefactorRecords_throws_None {A : Type}
    (from into : gmap string (list A)) :
  mutateToMergeRefactorRecords_throws from into = None ↔
  ∀ key, is_Some (from !! key) → blocks into key = false.
Proof.
  unfold mutateToMergeRefactorRecords_throws, mutateToMergeRefactorRecords_call.
  pose proof (NoDup_fst_map_to_list from) as Hnodup.
  split.
  - intros Hthrown key [tasks Htasks].
    destruct (blocks into key) eqn:Hkey; [|done].
    rewrite (mergeEntries_throws _ Hnodup into) in Hthrown; [done|].
    apply Exists_exists. exists (key, tasks). split; [|done].
    by apply elem_of_map_to_list.
  - intros Hfree. apply mergeEntries_completes; [done|].
    apply Forall_forall. intros [key tasks] Hin%elem_of_map_to_list. simpl. eauto.
Qed.

Lemma mutateToMergeRefactorRecords_throws_Some {A : Type}
    (from into : gmap string (list A)) (err : Thrown) :
  mutateToMergeRefactorRecords_throws from into = Some err →
  err = TypeError "existing.concat is not a function" ∧
  ∃ key, is_Some (from !! key) ∧ blocks into key = true.
Proof.
  unfold mutateToMergeRefactorRecords_throws, mutateToMergeRefactorRecords_call.
  pose proof (NoDup_fst_map_to_list from) as Hnodup.
  intros Hthrown.
  destruct (decide (Exists (λ entry, blocks into entry.1 = true) (map_to_list from)))
    as [Hex|Hall].
  - rewrite (mergeEntries_throws _ Hnodup into Hex) in Hthrown.
    split; [congruence|].
    apply Exists_exists in Hex as ([key tasks] & Hin%elem_of_map_to_list & Hkey).
    exists key. eauto.
  - apply not_Exists_Forall in Hall; [|intros entry; apply _].
    assert (Hfree : Forall (λ entry, blocks into entry.1 = false) (map_to_list from)).
    { eapply Forall_impl; [exact Hall|]. intros entry Hentry. simpl in Hentry.
      by destruct (blocks into entry.1). }
    by rewrite (proj1 (mergeEntries_completes _ Hnodup into Hfree)) in Hthrown.
Qed.

Lemma mutateToMergeRefactorRecords_lookup {A : Type}
    (from into : gmap string (list A)) key :
  mutateToMergeRefactorRecords_throws from into = None →
  mutateToMergeRefactorRecords from into !! key =
    union_with (λ a b, Some (a ++ b)) (into !! key) (from !! key).
Proof.
  intros Hthrown.
  pose proof (proj1 (mutateToMergeRefactorRecords_throws_None from into) Hthrown) as Hfree.
  unfold mutateToMergeRefactorRecords, mutateToMergeRefactorRecords_call.
  destruct (mergeEntries_completes (map_to_list from) (NoDup_fst_map_to_list from) into)
    as [_ Hafter].
  - apply Forall_forall. intros [k tasks] Hin%elem_of_map_to_list. simpl. eauto.
  - by rewrite Hafter, list_to_map_to_list.
Qed.

Lemma mutateToMergeRefactorRecords_entries {A : Type}
    (from into : gmap string (list A)) key :
  mutateToMergeRefactorRecords_throws from into = None →
  entries (mutateToMergeRefactorRecords from into) key =
    entries into key ++ entries from key.
Proof.
  intros Hthrown. unfold entries. rewrite mutateToMergeRefactorRecords_lookup by done.
  destruct (into !! key), (from !! key); simpl; by rewrite ?app_nil_r.
Qed.

Lemma mutateToMergeRefactorRecords_empty_from {A : Type} (into : gmap string (list A)) :
  mutateToMergeRefactorRecords_throws ∅ into = None ∧
  mutateToMergeRefactorRecords ∅ into = into.
Proof.
  unfold mutateToMergeRefactorRecords_throws, mutateToMergeRefactorRecords,
    mutateToMergeRefactorRecords_call.
  by rewrite map_to_list_empty.
Qed.

(** The two records of a result: the call throws what the first throwing
    merge throws, and completes when both merges do. *)
Lemma mutateToMergeRefactorFilesResults_throws_None (from into : RefactorFilesResult) :
  mutateToMergeRefactorFilesResults_throws from into = None ↔
  mutateToMergeRefactorRecords_throws (accepted from) (accepted into) = None ∧
  mutateToMergeRefactorRecords_throws (discarded from) (discarded into) = None.
Proof.
  unfold mutateToMergeRefactorFilesResults_throws, mutateToMergeRefactorFilesResults_call,
    mutateToMergeRefactorRecords_throws.
  cbv zeta.
  destruct (thrown (mutateToMergeRefactorRecords_call (accepted from) (accepted into)));
    simpl; split; first [done | by intros [? ?] | by split].
Qed.

Lemma mutateToMergeRefactorFilesResults_after (from into : RefactorFilesResult) :
  mutateToMergeRefactorFilesResults_throws from into = None →
  mutateToMergeRefactorFilesResults from into =
    {| accepted := mutateToMergeRefactorRecords (accepted from) (accepted into);
       discarded := mutateToMergeRefactorRecords (discarded from) (discarded into) |}.
Proof.
  intros Hthrown.
  destruct (proj1 (mutateToMergeRefactorFilesResults_throws_None from into) Hthrown)
    as [Hacc Hdisc].
  unfold mutateToMergeRefactorFilesResults, mutateToMergeRefactorFilesResults_call.
  unfold mutateToMergeRefactorRecords_throws in Hacc. cbv zeta. by rewrite Hacc.
Qed.

Lemma mutateToMergeRefactorFilesResults_throws_Some (from into : RefactorFilesResult)
    (err : Thrown) :
  mutateToMergeRefactorFilesResults_throws from into = Some err →
  err = TypeError "existing.concat is not a function".
Proof.
  unfold mutateToMergeRefactorFilesResults_throws, mutateToMergeRefactorFilesResults_call.
  cbv zeta.
  destruct (thrown (mutateToMergeRefactorRecords_call (accepted from) (accepted into)))
    as [err'|] eqn:Hacc; simpl.
  - intros [= <-]. by apply (mutateToMergeRefactorRecords_throws_Some _ _ _ Hacc).
  - intros Hdisc. by apply (mutateToMergeRefactorRecords_throws_Some _ _ _ Hdisc).
Qed.

(** Merging into the empty result completes exactly when no key of the
    merged result is the name of an inherited member, and then gives that
    result. *)
Lemma merge_emptyFilesResult (x : RefactorFilesResult) :
  mutateToMergeRefactorFilesResults_throws x emptyFilesResult = None →
  merge emptyFilesResult x = x.
Proof.
  intros Hthrown. unfold merge.
  rewrite mutateToMergeRefactorFilesResults_after by done.
  destruct (proj1 (mutateToMergeRefactorFilesResults_throws_None _ _) Hthrown)
    as [Hacc Hdisc].
  destruct x as [acc disc]. simpl in *. f_equal.
  - apply map_eq. intros key. rewrite mutateToMergeRefactorRecords_lookup by done.
    rewrite lookup_empty. by destruct (acc !! key).
  - apply map_eq. intros key. rewrite mutateToMergeRefactorRecords_lookup by done.
    rewrite lookup_empty. by destruct (disc !! key).
Qed.

(** Within one key the merge keeps the order of its arguments. *)
Example merge_keeps_order :
  entries (accepted (merge Scripted.batch1 Scripted.batch2)) "a" =
    [Scripted.success "a" "c1"; Scripted.success "a" "c2"] ∧
  entries (accepted (merge Scripted.batch2 Scripted.batch1)) "a" =
    [Scripted.success "a" "c2"; Scripted.success "a" "c1"] ∧
  entries (discarded (merge Scripted.batch1 Scripted.batch2)) "b" =
    [Scripted.failure "b"] ∧
  entries (discarded (merge Scripted.batch1 Scripted.batch2)) "a" = [].
Proof. by vm_compute. Qed.

(** C2. On the code the property fails at an own key of [from] that is the
    name of a member of [Object.prototype]: merging the batch that accepted
    the file [constructor] into the empty result throws a [TypeError] at
    [existing.concat] (line 313) and leaves the entry of [into] empty, where
    the property has it hold the entry of [from]. *)
Theorem mutateToMergeRefactorFilesResults_inherited_key :
  mutateToMergeRefactorFilesResults_throws Scenarios.constructorBatch emptyFilesResult =
    Some (TypeError "existing.concat is not a function") ∧
  entries
    (accepted (mutateToMergeRefactorFilesResults Scenarios.constructorBatch emptyFilesResult))
    "constructor" = [] ∧
  entries (accepted emptyFilesResult) "constructor" ++
    entries (accepted Scenarios.constructorBatch) "constructor" =
    [Scenarios.constructorFile].
Proof. by vm_compute. Qed.

(** C3. On the code the left identity fails at a result with an own key
    that is the name of a member of [Object.prototype]: merging the batch
    that accepted the file [constructor] into the empty result throws a
    [TypeError] and leaves the empty result empty. *)
Theorem merge_empty_inherited_key :
  mutateToMergeRefactorFilesResults_throws Scenarios.constructorBatch emptyFilesResult =
    Some (TypeError "existing.concat is not a function") ∧
  merge emptyFilesResult Scenarios.constructorBatch = emptyFilesResult ∧
  merge emptyFilesResult Scenarios.constructorBatch ≠ Scenarios.constructorBatch.
Proof.
  split_and!; [by vm_compute..|].
  intros Hmerge. apply (f_equal (λ x, entries (accepted x) "constructor")) in Hmerge.
  vm_compute in Hmerge. discriminate.
Qed.

(** C4. [lastCommit steps] is the commit of the last step of a non-empty
    list and is absent for the empty list; a result whose [lastCommit] is
    computed by it satisfies the invariant of the data model. *)
Theorem lastCommit_is_commit_of_final_step :
  (∀ (T : Type) (HT : HasCommit T) (steps : list T),
     lastCommit steps = commit <$> last steps) ∧
  (∀ (T : Type) (HT : HasCommit T), lastCommit (@nil T) = None) ∧
  (∀ (T : Type) (HT : HasCommit T) (steps : list T) (step : T),
     lastCommit (steps ++ [step]) = Some (commit step)) ∧
  (∀ path issues (steps : list RefactorStepResult),
     lastCommit_invariant
       (Success (mkRefactorSuccessResult path issues steps (lastCommit steps)))) ∧
  (∀ description path issues (steps : list RefactorStepResult),
     lastCommit_invariant
       (Failure (mkRefactorFailedResult description path issues steps (lastCommit steps)))).
Proof.
  assert (Hlast : ∀ (T : Type) (HT : HasCommit T) (steps : list T),
            lastCommit steps = commit <$> last steps).
  { intros T HT steps. unfold lastCommit. by rewrite array_get_last. }
  split; [|split; [|split; [|split]]].
  - exact Hlast.
  - intros T HT. by rewrite Hlast.
  - intros T HT steps step. by rewrite Hlast, last_snoc.
  - intros path issues steps. unfold lastCommit_invariant. simpl. apply Hlast.
  - intros description path issues steps. unfold lastCommit_invariant. simpl. apply Hlast.
Qed.

(** C10. On the code the property fails at a [filePath] that is the name of
    a member of [Object.prototype]: pushing the result for the file
    [constructor] into the empty record reads the inherited member, throws a
    [TypeError] at [array.push] (line 300) and leaves the record empty, where
    the property has its entry hold the result. *)
Theorem pushRefactorFileResults_inherited_key :
  filePath Scenarios.constructorFile = "constructor" ∧
  pushRefactorFileResults_throws Scenarios.constructorFile ∅ =
    Some (TypeError "array.push is not a function") ∧
  pushRefactorFileResults Scenarios.constructorFile ∅ !! "constructor" = None ∧
  pushRefactorFileResults Scenarios.constructorFile ∅ = ∅.
Proof. by vm_compute. Qed.

(** ** [enrichObjective] *)

Section EnrichObjectiveProperties.
Context {W Message : Type}.
Variable role : Message → string.
Variable functionCall_in : Message → bool.
Variable content : Message → string.
Variable trim : string → string.
Variable prompt : enrichObjectiveInput → W → Settled (list Message) * W.

Lemma enrichFromMessages_cases input messages :
  match last messages with
  | None =>
      messages = [] ∧
      enrichFromMessages role functionCall_in content trim input messages =
        RejectedWith (Error "No messages found after prompt")
  | Some lastMessage =>
      if decide (role lastMessage = "assistant") then
        if functionCall_in lastMessage then
          enrichFromMessages role functionCall_in content trim input messages =
            RejectedWith (Error "Expected last message to not be a function-call")
        else
          enrichFromMessages role functionCall_in content trim input messages =
            Fulfilled
              {| enrichedObjective :=
                   trim (enrich_objective input) +:+ (newline +:+ newline) +:+
                   trim (content lastMessage) |}
      else
        enrichFromMessages role functionCall_in content trim input messages =
          RejectedWith (Error "Expected last message to be from assistant")
  end.
Proof.
  unfold enrichFromMessages. rewrite array_get_last.
  destruct (last messages) as [lastMessage|] eqn:Hlast.
  - case_decide as Hrole.
    + rewrite (proj2 (String.eqb_eq _ _) Hrole). simpl.
      by destruct (functionCall_in lastMessage).
    + by rewrite (proj2 (String.eqb_neq _ _) Hrole).
  - split; [|done]. by apply last_None.
Qed.

(** C9. When the prompt step returns its messages, [enrichObjective]
    throws exactly when the list is empty, or its last message is not
    from the assistant, or its last message is a function call, and then
    it produces no result; otherwise it returns the trimmed objective,
    two newline characters and the trimmed content of the last message. A
    rejection of the prompt step itself is passed on. *)
Theorem enrichObjective_throws_or_enriches (input : enrichObjectiveInput) (w : W) :
  match prompt input w with
  | (Fulfilled messages, w') =>
      ((∃ err, enrichObjective role functionCall_in content trim prompt input w =
                 (RejectedWith err, w')) ↔ enrich_throws role functionCall_in messages) ∧
      (enrich_throws role functionCall_in messages ∨
       ∃ lastMessage,
         last messages = Some lastMessage ∧
         role lastMessage = "assistant" ∧
         functionCall_in lastMessage = false ∧
         enrichObjective role functionCall_in content trim prompt input w =
           (Fulfilled
              {| enrichedObjective :=
                   trim (enrich_objective input) +:+ (newline +:+ newline) +:+
                   trim (content lastMessage) |}, w'))
  | (RejectedWith err, w') =>
      enrichObjective role functionCall_in content trim prompt input w =
        (RejectedWith err, w')
  end.
Proof.
  unfold enrichObjective.
  destruct (prompt input w) as [[messages|err] w']; [|done].
  pose proof (enrichFromMessages_cases input messages) as Hcases.
  destruct (last messages) as [lastMessage|] eqn:Hlast.
  - assert (Hne : messages ≠ []) by (intros ->; discriminate).
    case_decide as Hrole.
    + destruct (functionCall_in lastMessage) eqn:Hcall; rewrite Hcases.
      * assert (Hthrows : enrich_throws role functionCall_in messages).
        { right. right. by exists lastMessage. }
        split; [split; eauto|]. by left.
      * split.
        -- split.
           ++ intros [err Herr]. discriminate.
           ++ intros [?|[(m & Hm & Hr)|(m & Hm & Hc)]]; simplify_eq; congruence.
        -- right. eauto 6.
    + rewrite Hcases.
      assert (Hthrows : enrich_throws role functionCall_in messages).
      { right. left. by exists lastMessage. }
      split; [split; eauto|]. by left.
  - destruct Hcases as [-> ->].
    assert (Hthrows : enrich_throws role functionCall_in []) by by left.
    split; [split; eauto|]. by left.
Qed.
End EnrichObjectiveProperties.

(** ** [planAndRefactor] *)

Lemma PlanFilesResult_eta (planResult : PlanFilesResult) :
  {| plannedFiles := plannedFiles planResult; rawResponse := rawResponse planResult |} =
  planResult.
Proof. by destruct planResult. Qed.

(** The equations of the run computations. *)

Lemma bind_ret {W A B : Type} (a : A) (k : A → M W B) (w : W) :
  bind (ret a) k w = k a w.
Proof. unfold bind, ret. simpl. by destruct (k a w). Qed.

Lemma bind_perform {W B : Type} (f : W → W) (event : Event) (k : unit → M W B) (w : W) :
  bind (perform f event) k w =
    mkRun (outcome (k tt (f w))) (world (k tt (f w))) (event :: events (k tt (f w))).
Proof. reflexivity. Qed.

Lemma bind_await {W A B : Type} (f : W → Settled A * W) (event : Settled A → Event)
    (k : A → M W B) (w : W) :
  bind (await f event) k w =
    match f w with
    | (Fulfilled a, w1) =>
        mkRun (outcome (k a w1)) (world (k a w1))
          (event (Fulfilled a) :: events (k a w1))
    | (RejectedWith err, w1) => mkRun (Rejected err) w1 [event (RejectedWith err)]
    end.
Proof. unfold bind, await. by destruct (f w) as [[a|err] w1]. Qed.

Lemma bind_assoc {W A B C : Type} (m : M W A) (f : A → M W B) (g : B → M W C) (w : W) :
  bind (bind m f) g w = bind m (λ a, bind (f a) g) w.
Proof.
  unfold bind. destruct (m w) as [[a|err|] w1 trace1]; simpl; [|done..].
  destruct (f a w1) as [[b|err|] w2 trace2]; simpl; [|done..].
  by rewrite app_assoc.
Qed.

(** [f(...).catch(handler)] followed by [k], by the way [f] settles. *)
Lemma bind_catch_await {W A B : Type} (f : W → Settled A * W)
    (event : Settled A → Event) (handler : Thrown → M W A) (k : A → M W B) (w : W) :
  bind (catch (await f event) handler) k w =
    match f w with
    | (Fulfilled a, w1) =>
        mkRun (outcome (k a w1)) (world (k a w1))
          (event (Fulfilled a) :: events (k a w1))
    | (RejectedWith err, w1) =>
        mkRun (outcome (bind (handler err) k w1)) (world (bind (handler err) k w1))
          (event (RejectedWith err) :: events (bind (handler err) k w1))
    end.
Proof.
  unfold bind, catch, await. destruct (f w) as [[a|err] w1]; simpl; [done|].
  destruct (handler err w1) as [[a|err'|] w2 trace2]; simpl; done.
Qed.

Ltac rewrite_cycle_test :=
  match goal with
  | H : instanceof_CycleDetectedError _ = _ |- _ => rewrite H
  end.

Section PlanAndRefactorProperties.
Context {W : Type}.
Variable planFiles : planAndRefactorInput → W → Settled PlanFilesResult * W.
Variable refactorBatch :
  list string → planAndRefactorInput → W → Settled RefactorFilesResult * W.
Variable resetToLastAcceptedCommit :
  string → RefactorFilesResult → W → Settled unit * W.
Variable logger_warn : Thrown → RefactorFilesResult → W → W.
Variable dispatch : Action → W → W.

Local Abbreviation loop :=
  (while_plannedFiles planFiles refactorBatch resetToLastAcceptedCommit
     logger_warn dispatch).
Local Abbreviation run :=
  (planAndRefactor planFiles refactorBatch resetToLastAcceptedCommit
     logger_warn dispatch).

Lemma loop_exit fuel input files0 records w :
  loop fuel input [] files0 records w =
    mkRun (Returned {| files := files0; planFilesResults := records |}) w [].
Proof. by destruct fuel. Qed.

Lemma loop_out_of_fuel input file rest files0 records w :
  loop 0 input (file :: rest) files0 records w = mkRun OutOfFuel w [].
Proof. reflexivity. Qed.

(** One iteration of the loop, by the way its three calls settle. *)
Lemma loop_iteration fuel input file rest files0 records w :
  loop (S fuel) input (file :: rest) files0 records w =
    let planned := file :: rest in
    let location := sandboxDirectoryPath input in
    match refactorBatch planned input w with
    | (RejectedWith err, w1) =>
        mkRun (Rejected err) w1 [RefactorBatchCalled planned (RejectedWith err)]
    | (Fulfilled result, w1) =>
        match resetToLastAcceptedCommit location result w1 with
        | (RejectedWith err, w2) =>
            mkRun (Rejected err) w2
              [RefactorBatchCalled planned (Fulfilled result);
               ResetToLastAcceptedCommitCalled location result (RejectedWith err)]
        | (Fulfilled u, w2) =>
            match mutateToMergeRefactorFilesResults_throws result files0 with
            | Some err =>
                mkRun (Rejected err) w2
                  [RefactorBatchCalled planned (Fulfilled result);
                   ResetToLastAcceptedCommitCalled location result (Fulfilled u);
                   Merged result]
            | None =>
            let files1 := mutateToMergeRefactorFilesResults result files0 in
            match planFiles input w2 with
            | (Fulfilled planResult, w3) =>
                let next :=
                  loop fuel input (plannedFiles planResult) files1
                    (records ++ [planResult])
                    (dispatch (planFilesComplete planResult) w3) in
                mkRun (outcome next) (world next)
                  (RefactorBatchCalled planned (Fulfilled result)
                   :: ResetToLastAcceptedCommitCalled location result (Fulfilled u)
                   :: Merged result
                   :: PlanFilesCalled (Fulfilled planResult)
                   :: Dispatched (planFilesComplete planResult)
                   :: events next)
            | (RejectedWith err, w3) =>
                if instanceof_CycleDetectedError err then
                  mkRun
                    (Returned {| files := files1;
                                 planFilesResults := records ++ [emptyPlan] |})
                    (dispatch (planFilesComplete emptyPlan) (logger_warn err result w3))
                    [RefactorBatchCalled planned (Fulfilled result);
                     ResetToLastAcceptedCommitCalled location result (Fulfilled u);
                     Merged result;
                     PlanFilesCalled (RejectedWith err);
                     Warned err result;
                     Dispatched (planFilesComplete emptyPlan)]
                else
                  mkRun (Rejected err) w3
                    [RefactorBatchCalled planned (Fulfilled result);
                     ResetToLastAcceptedCommitCalled location result (Fulfilled u);
                     Merged result;
                     PlanFilesCalled (RejectedWith err)]
            end
            end
        end
    end.
Proof.
  cbn [while_plannedFiles]. cbv zeta.
  rewrite decide_True by (simpl; lia).
  rewrite bind_await.
  destruct (refactorBatch (file :: rest) input w) as [[result|err] w1]; [|done].
  rewrite bind_await.
  destruct (resetToLastAcceptedCommit (sandboxDirectoryPath input) result w1)
    as [[u|err] w2]; [|done].
  rewrite bind_assoc, bind_perform. cbv beta.
  unfold mutate, mutateToMergeRefactorFilesResults_throws,
    mutateToMergeRefactorFilesResults.
  destruct (thrown (mutateToMergeRefactorFilesResults_call result files0)) as [err|];
    [done|].
  rewrite bind_ret. unfold replan, id.
  rewrite bind_catch_await.
  destruct (planFiles input w2) as [[planResult|err] w3]; cbv beta.
  - rewrite bind_perform, splice_all, PlanFilesResult_eta. reflexivity.
  - destruct (instanceof_CycleDetectedError err); [|done].
    rewrite bind_assoc, bind_perform. cbv beta.
    rewrite bind_ret, bind_perform, splice_all.
    cbn [plannedFiles rawResponse emptyPlan].
    rewrite loop_exit. reflexivity.
Qed.

Local Abbreviation LoopRuns :=
  (LoopRun planFiles refactorBatch resetToLastAcceptedCommit logger_warn dispatch).

(** Every run of the loop is one of the cases of [LoopRun]. *)
Lemma loop_LoopRun input fuel :
  ∀ planned files0 records w,
    LoopRuns input planned files0 records w (loop fuel input planned files0 records w).
Proof.
  induction fuel as [|fuel IH]; intros [|file rest] files0 records w.
  - rewrite loop_exit. constructor.
  - rewrite loop_out_of_fuel. by constructor.
  - rewrite loop_exit. constructor.
  - rewrite loop_iteration. cbv zeta.
    destruct (refactorBatch (file :: rest) input w) as [[result|err] w1] eqn:Hbatch;
      [|by constructor].
    destruct (resetToLastAcceptedCommit (sandboxDirectoryPath input) result w1)
      as [[u|err] w2] eqn:Hreset; [|by econstructor].
    destruct (mutateToMergeRefactorFilesResults_throws result files0) as [err|]
      eqn:Hmerge; [by econstructor|].
    destruct (planFiles input w2) as [[planResult|err] w3] eqn:Hplan.
    + by econstructor.
    + destruct (instanceof_CycleDetectedError err) eqn:Hcycle; by econstructor.
Qed.

(** The run of [planAndRefactor]: the first planning call, its dispatch,
    and the loop. *)
Lemma planAndRefactor_unfold fuel input w :
  run fuel input w =
    match planFiles input w with
    | (Fulfilled planResult, w1) =>
        let next :=
          loop fuel input (plannedFiles planResult) emptyFilesResult [planResult]
            (dispatch (planFilesComplete planResult) w1) in
        mkRun (outcome next) (world next)
          (PlanFilesCalled (Fulfilled planResult)
           :: Dispatched (planFilesComplete planResult)
           :: events next)
    | (RejectedWith err, w1) =>
        mkRun (Rejected err) w1 [PlanFilesCalled (RejectedWith err)]
    end.
Proof.
  unfold planAndRefactor. cbv zeta. rewrite bind_await.
  destruct (planFiles input w) as [[planResult|err] w1]; [|done].
  rewrite bind_perform, PlanFilesResult_eta. reflexivity.
Qed.

(** The first planning call is outside the loop and its [catch]: whatever
    it rejects with, a cycle signal too, ends the run. *)
Lemma planAndRefactor_first_plan_rejected fuel input w err w1 :
  planFiles input w = (RejectedWith err, w1) →
  run fuel input w = mkRun (Rejected err) w1 [PlanFilesCalled (RejectedWith err)].
Proof. intros Hplan. by rewrite planAndRefactor_unfold, Hplan. Qed.

(** Fuel only bounds the iterations: a run of the loop that did not run out
    of fuel is the same with more fuel. *)
Lemma loop_more_fuel input fuel extra :
  ∀ planned files0 records w,
    outcome (loop fuel input planned files0 records w) ≠ OutOfFuel →
    loop (fuel + extra) input planned files0 records w =
      loop fuel input planned files0 records w.
Proof.
  induction fuel as [|fuel IH]; intros [|file rest] files0 records w Hout.
  - by rewrite !loop_exit.
  - by rewrite loop_out_of_fuel in Hout.
  - by rewrite !loop_exit.
  - change (S fuel + extra)%nat with (S (fuel + extra)).
    rewrite loop_iteration in Hout. rewrite !loop_iteration. cbv zeta in *.
    destruct (refactorBatch (file :: rest) input w) as [[result|err] w1]; [|done].
    destruct (resetToLastAcceptedCommit (sandboxDirectoryPath input) result w1)
      as [[u|err] w2]; [|done].
    destruct (mutateToMergeRefactorFilesResults_throws result files0); [done|].
    destruct (planFiles input w2) as [[planResult|err] w3]; [|done].
    simpl in Hout. by rewrite IH.
Qed.

Lemma planAndRefactor_more_fuel fuel extra input w :
  outcome (run fuel input w) ≠ OutOfFuel →
  run (fuel + extra) input w = run fuel input w.
Proof.
  rewrite !planAndRefactor_unfold.
  destruct (planFiles input w) as [[planResult|err] w1]; [|done].
  cbv zeta. simpl. intros Hout. by rewrite loop_more_fuel.
Qed.

(** How a run of the loop starts. *)
Lemma LoopRun_head input planned files0 records w r :
  LoopRuns input planned files0 records w r →
  (planned = [] →
     events r = [] ∧
     outcome r = Returned {| files := files0; planFilesResults := records |}) ∧
  (planned ≠ [] →
     (∃ settled trace, events r = RefactorBatchCalled planned settled :: trace) ∨
     (events r = [] ∧ outcome r = OutOfFuel)).
Proof.
  intros Hrun. destruct Hrun; simpl; split; intros; try done; eauto.
Qed.

(** A planning call of the loop that rejects: a cycle ends the run with
    the batches merged so far and an empty last plan, any other error
    ends it with that error. *)
Lemma LoopRun_plan_rejected input planned files0 records w r :
  LoopRuns input planned files0 records w r →
  ∀ i err,
    events r !! i = Some (PlanFilesCalled (RejectedWith err)) →
    if instanceof_CycleDetectedError err then
      (∃ records' result,
         outcome r =
           Returned {| files := accumulate files0 (batch_results (take i (events r)));
                       planFilesResults := records' ++ [emptyPlan] |} ∧
         drop (S i) (events r) =
           [Warned err result; Dispatched (planFilesComplete emptyPlan)])
    else outcome r = Rejected err ∧ drop (S i) (events r) = [].
Proof.
  induction 1 as [| | | | | |planned files0 records w result w1 u w2 planResult w3
                             next Hne Hbatch Hreset Hmerge Hplan Hnext IH|];
    intros i e Hi; simpl in Hi.
  - done.
  - done.
  - by destruct i as [|[|i]].
  - by destruct i as [|[|[|i]]].
  - destruct i as [|[|[|[|[|i]]]]]; simplify_eq/=.
    by rewrite_cycle_test.
  - destruct i as [|[|[|[|[|[|[|i]]]]]]]; simplify_eq/=.
    rewrite_cycle_test. eauto.
  - destruct i as [|[|[|[|[|i]]]]]; simplify_eq/=.
    specialize (IH i e Hi).
    destruct (instanceof_CycleDetectedError e); [|done].
    destruct IH as (records' & result' & -> & Hdrop).
    by exists records', result'.
  - by destruct i as [|[|[|[|i]]]].
Qed.

(** A batch is run on a non-empty list, the one the loop was entered with
    or the one dispatched just before; when it completes, the reset, the
    merge and the next planning call follow in this order, unless the merge
    throws, which ends the run. *)
Lemma LoopRun_batch_order input planned files0 records w r :
  LoopRuns input planned files0 records w r →
  ∀ i batch settled,
    events r !! i = Some (RefactorBatchCalled batch settled) →
    batch ≠ [] ∧
    match i with
    | O => batch = planned
    | S j =>
        ∃ planResult,
          events r !! j = Some (Dispatched (planFilesComplete planResult)) ∧
          plannedFiles planResult = batch
    end ∧
    ∀ result,
      settled = Fulfilled result →
      ∃ reset,
        events r !! (i + 1) =
          Some (ResetToLastAcceptedCommitCalled (sandboxDirectoryPath input) result reset) ∧
        ∀ u,
          reset = Fulfilled u →
          events r !! (i + 2) = Some (Merged result) ∧
          match
            mutateToMergeRefactorFilesResults_throws result
              (accumulate files0 (batch_results (take i (events r))))
          with
          | None => ∃ replanned, events r !! (i + 3) = Some (PlanFilesCalled replanned)
          | Some err => events r !! (i + 3) = None ∧ outcome r = Rejected err
          end.
Proof.
  induction 1 as [| | |
                   |planned files0 records w result w1 u w2 err w3
                      Hne Hbatch Hreset Hmerge Hplan Hcycle
                   |planned files0 records w result w1 u w2 err w3
                      Hne Hbatch Hreset Hmerge Hplan Hcycle
                   |planned files0 records w result w1 u w2 planResult w3
                      next Hne Hbatch Hreset Hmerge Hplan Hnext IH
                   |planned files0 records w result w1 u w2 err
                      Hne Hbatch Hreset Hmerge];
    intros i batch settled Hi; simpl in Hi.
  - done.
  - done.
  - destruct i as [|[|i]]; simplify_eq/=. done.
  - destruct i as [|[|[|i]]]; simplify_eq/=.
    split_and!; [done..|]. intros ? [= <-]. eexists. split; [done|]. by intros.
  - destruct i as [|[|[|[|[|i]]]]]; simplify_eq/=.
    split_and!; [done..|]. intros ? [= <-]. eexists. split; [done|].
    intros ? [= <-]. split; [done|]. rewrite Hmerge. eauto.
  - destruct i as [|[|[|[|[|[|[|i]]]]]]]; simplify_eq/=.
    split_and!; [done..|]. intros ? [= <-]. eexists. split; [done|].
    intros ? [= <-]. split; [done|]. rewrite Hmerge. eauto.
  - destruct i as [|[|[|[|[|i]]]]]; simplify_eq/=.
    + split_and!; [done..|]. intros ? [= <-]. eexists. split; [done|].
      intros ? [= <-]. split; [done|]. rewrite Hmerge. eauto.
    + destruct (IH i batch settled Hi) as (Hbatch' & Hprev & Hafter).
      split_and!; [done| |done].
      destruct i as [|j]; simpl; [|done].
      subst batch. by exists planResult.
  - destruct i as [|[|[|[|i]]]]; simplify_eq/=.
    split_and!; [done..|]. intros ? [= <-]. eexists. split; [done|].
    intros ? [= <-]. split; [done|]. by rewrite Hmerge.
Qed.

(** After a dispatch: the run returns at once when the dispatched plan is
    empty, and goes on with a batch on the planned files when it is not
    (unless the fuel is spent). *)
Lemma LoopRun_after_dispatch input planned files0 records w r :
  LoopRuns input planned files0 records w r →
  ∀ i planResult,
    events r !! i = Some (Dispatched (planFilesComplete planResult)) →
    (plannedFiles planResult = [] →
       events r !! (i + 1) = None ∧ ∃ value, outcome r = Returned value) ∧
    (plannedFiles planResult ≠ [] →
       (∃ settled,
          events r !! (i + 1) =
            Some (RefactorBatchCalled (plannedFiles planResult) settled)) ∨
       (events r !! (i + 1) = None ∧ outcome r = OutOfFuel)).
Proof.
  induction 1 as [| | | | | |planned files0 records w result w1 u w2 planResult w3
                             next Hne Hbatch Hreset Hmerge Hplan Hnext IH|];
    intros i plan Hi; simpl in Hi.
  - done.
  - done.
  - by destruct i as [|[|i]].
  - by destruct i as [|[|[|i]]].
  - by destruct i as [|[|[|[|[|i]]]]].
  - destruct i as [|[|[|[|[|[|[|i]]]]]]]; simplify_eq/=. split; [eauto|done].
  - destruct i as [|[|[|[|[|i]]]]]; simplify_eq/=.
    + destruct (LoopRun_head _ _ _ _ _ _ Hnext) as [Hempty Hnonempty]. split.
      * intros Hnil. destruct (Hempty Hnil) as [-> ->]. eauto.
      * intros Hcons. destruct (Hnonempty Hcons) as [(settled & trace & ->)|[-> ->]];
          eauto.
    + exact (IH i plan Hi).
  - by destruct i as [|[|[|[|i]]]].
Qed.

(** A run of the loop that returns was entered with nothing planned and did
    nothing, or ends with the dispatch of an empty plan. *)
Lemma LoopRun_returned input planned files0 records w r :
  LoopRuns input planned files0 records w r →
  ∀ value,
    outcome r = Returned value →
    (planned = [] ∧ events r = []) ∨
    ∃ planResult,
      last (events r) = Some (Dispatched (planFilesComplete planResult)) ∧
      plannedFiles planResult = [].
Proof.
  induction 1 as [| | | | | |planned files0 records w result w1 u w2 planResult w3
                             next Hne Hbatch Hreset Hmerge Hplan Hnext IH|];
    intros value Hvalue; simpl in Hvalue; try done.
  - by left.
  - right. by exists emptyPlan.
  - right. destruct (IH value Hvalue) as [[Hnil ->]|(plan & Hlast & Hplanned)].
    + by exists planResult.
    + exists plan. split; [|done]. simpl.
      destruct (events next) as [|event trace]; [done|]. exact Hlast.
Qed.

(** What follows a planning call of the loop: the dispatch of the plan it
    returned; after a cycle signal the warning and the dispatch of the empty
    plan; after any other rejection nothing, the run is over. *)
Lemma LoopRun_after_planning input planned files0 records w r :
  LoopRuns input planned files0 records w r →
  ∀ i settled,
    events r !! i = Some (PlanFilesCalled settled) →
    match settled with
    | Fulfilled planResult =>
        events r !! (i + 1) = Some (Dispatched (planFilesComplete planResult))
    | RejectedWith err =>
        if instanceof_CycleDetectedError err then
          (∃ result, events r !! (i + 1) = Some (Warned err result)) ∧
          events r !! (i + 2) = Some (Dispatched (planFilesComplete emptyPlan))
        else events r !! (i + 1) = None ∧ outcome r = Rejected err
    end.
Proof.
  induction 1 as [| | | | | |planned files0 records w result w1 u w2 planResult w3
                             next Hne Hbatch Hreset Hmerge Hplan Hnext IH|];
    intros i settled Hi; simpl in Hi.
  - done.
  - done.
  - by destruct i as [|[|i]].
  - by destruct i as [|[|[|i]]].
  - destruct i as [|[|[|[|[|i]]]]]; simplify_eq/=. by rewrite_cycle_test.
  - destruct i as [|[|[|[|[|[|[|i]]]]]]]; simplify_eq/=. rewrite_cycle_test. eauto.
  - destruct i as [|[|[|[|[|i]]]]]; simplify_eq/=; [done|].
    exact (IH i settled Hi).
  - by destruct i as [|[|[|[|i]]]].
Qed.

(** In every prefix of the events of the loop, the dispatches are as many as
    the planning calls, or one fewer. *)
Lemma LoopRun_alternation input planned files0 records w r :
  LoopRuns input planned files0 records w r →
  ∀ n,
    (length (dispatched (take n (events r))) ≤
       length (planning_calls (take n (events r))))%nat ∧
    (length (planning_calls (take n (events r))) ≤
       S (length (dispatched (take n (events r)))))%nat.
Proof.
  induction 1 as [| | | | | |planned files0 records w result w1 u w2 planResult w3
                             next Hne Hbatch Hreset Hmerge Hplan Hnext IH|];
    intros n.
  - destruct n; simpl; lia.
  - destruct n; simpl; lia.
  - destruct n as [|[|n]]; simpl; lia.
  - destruct n as [|[|[|n]]]; simpl; lia.
  - destruct n as [|[|[|[|[|n]]]]]; simpl; lia.
  - destruct n as [|[|[|[|[|[|[|n]]]]]]]; simpl; lia.
  - destruct n as [|[|[|[|[|n]]]]]; simpl; try lia.
    specialize (IH n). lia.
  - destruct n as [|[|[|[|n]]]]; simpl; lia.
Qed.

(** What a run of the loop that returns has recorded: one planning record
    and one dispatch per planning call, in order, and the batch results
    merged in order. No planning call of such a run rejected with anything
    but a cycle signal. *)
Lemma LoopRun_records input planned files0 records w r :
  LoopRuns input planned files0 records w r →
  ∀ value,
    outcome r = Returned value →
    planFilesResults value = records ++ (plan_of <$> planning_calls (events r)) ∧
    dispatched (events r) = (planFilesComplete ∘ plan_of) <$> planning_calls (events r) ∧
    files value = accumulate files0 (batch_results (events r)) ∧
    ∀ err,
      RejectedWith err ∈ planning_calls (events r) →
      instanceof_CycleDetectedError err = true.
Proof.
  induction 1 as [| | | | | |planned files0 records w result w1 u w2 planResult w3
                             next Hne Hbatch Hreset Hmerge Hplan Hnext IH|];
    intros value Hvalue; simpl in Hvalue; simplify_eq/=.
  - rewrite app_nil_r. split_and!; [done..|]. by intros err ?%elem_of_nil.
  - split_and!; [done..|]. by intros err0 [= ->]%list_elem_of_singleton.
  - destruct (IH value Hvalue) as (-> & -> & -> & Hcycles).
    rewrite <- app_assoc. split_and!; [done..|].
    intros err [?|?]%elem_of_cons; [done|]. by apply Hcycles.
Qed.

(** C1. In every run, a re-planning call (a planning call after the
    first event) that rejects with a [CycleDetectedError] is answered by
    a warning and the dispatch of the empty plan, after which the run
    returns the batch results merged so far, its last planning record being
    the empty plan; a re-planning call that rejects with any other error
    ends the run with that error and without a result. *)
Theorem planAndRefactor_replanning_rejected fuel input w i err :
  (0 < i)%nat →
  events (run fuel input w) !! i = Some (PlanFilesCalled (RejectedWith err)) →
  if instanceof_CycleDetectedError err then
    ∃ records result,
      outcome (run fuel input w) =
        Returned
          {| files :=
               accumulate emptyFilesResult
                 (batch_results (take i (events (run fuel input w))));
             planFilesResults := records ++ [emptyPlan] |} ∧
      drop (S i) (events (run fuel input w)) =
        [Warned err result; Dispatched (planFilesComplete emptyPlan)]
  else
    outcome (run fuel input w) = Rejected err ∧
    drop (S i) (events (run fuel input w)) = [].
Proof.
  intros Hi. rewrite planAndRefactor_unfold.
  destruct (planFiles input w) as [[planResult|err0] w1]; cbv zeta; simpl.
  - destruct i as [|[|i]]; [lia|done|]. simpl. intros Hevent.
    exact (LoopRun_plan_rejected _ _ _ _ _ _ (loop_LoopRun _ _ _ _ _ _) i err Hevent).
  - destruct i as [|i]; [lia|done].
Qed.

(** C5. In every run: each call of [refactorBatch] is on a non-empty list,
    the planned files dispatched just before it; when the batch completes,
    [resetToLastAcceptedCommit] at [sandboxDirectoryPath] comes next, then
    the merge of the batch result, then the next call of [planFiles] (a
    step that rejects or throws, the merge included, ends the run there).
    After the dispatch of an empty plan the run returns at once, after the
    dispatch of a non-empty plan the loop body runs (while fuel lasts), and a
    run that returns ends with the dispatch of an empty plan, its accumulator
    being the batch results merged in order. *)
Theorem planAndRefactor_iteration_order fuel input w :
  (∀ i batch settled,
     events (run fuel input w) !! i = Some (RefactorBatchCalled batch settled) →
     batch ≠ [] ∧
     (∃ j planResult,
        i = S j ∧
        events (run fuel input w) !! j = Some (Dispatched (planFilesComplete planResult)) ∧
        plannedFiles planResult = batch) ∧
     ∀ result,
       settled = Fulfilled result →
       ∃ reset,
         events (run fuel input w) !! (i + 1) =
           Some (ResetToLastAcceptedCommitCalled (sandboxDirectoryPath input) result reset) ∧
         ∀ u,
           reset = Fulfilled u →
           events (run fuel input w) !! (i + 2) = Some (Merged result) ∧
           match
             mutateToMergeRefactorFilesResults_throws result
               (accumulate emptyFilesResult
                  (batch_results (take i (events (run fuel input w)))))
           with
           | None =>
               ∃ replanned,
                 events (run fuel input w) !! (i + 3) = Some (PlanFilesCalled replanned)
           | Some err =>
               events (run fuel input w) !! (i + 3) = None ∧
               outcome (run fuel input w) = Rejected err
           end) ∧
  (∀ i planResult,
     events (run fuel input w) !! i = Some (Dispatched (planFilesComplete planResult)) →
     (plannedFiles planResult = [] →
        events (run fuel input w) !! (i + 1) = None ∧
        ∃ value, outcome (run fuel input w) = Returned value) ∧
     (plannedFiles planResult ≠ [] →
        (∃ settled,
           events (run fuel input w) !! (i + 1) =
             Some (RefactorBatchCalled (plannedFiles planResult) settled)) ∨
        (events (run fuel input w) !! (i + 1) = None ∧
         outcome (run fuel input w) = OutOfFuel))) ∧
  (∀ value,
     outcome (run fuel input w) = Returned value →
     (∃ planResult,
        last (events (run fuel input w)) =
          Some (Dispatched (planFilesComplete planResult)) ∧
        plannedFiles planResult = []) ∧
     files value = accumulate emptyFilesResult (batch_results (events (run fuel input w)))).
Proof.
  rewrite planAndRefactor_unfold.
  destruct (planFiles input w) as [[plan0 |err0] w1]; cbv zeta; simpl.
  - pose proof (loop_LoopRun input fuel (plannedFiles plan0) emptyFilesResult [plan0]
                  (dispatch (planFilesComplete plan0) w1)) as Hloop.
    split_and!.
    + intros [|[|i]] batch settled Hi; simplify_eq/=.
      destruct (LoopRun_batch_order _ _ _ _ _ _ Hloop i batch settled Hi)
        as (Hbatch & Hprev & Hafter).
      split_and!; [done| |done].
      destruct i as [|j].
      * subst batch. by exists 1%nat, plan0.
      * destruct Hprev as (planResult & Hj & Hplanned).
        by exists (S (S j)), planResult.
    + intros [|[|i]] planResult Hi; simplify_eq/=.
      * destruct (LoopRun_head _ _ _ _ _ _ Hloop) as [Hempty Hnonempty]. split.
        -- intros Hnil. destruct (Hempty Hnil) as [-> ->]. eauto.
        -- intros Hcons.
           destruct (Hnonempty Hcons) as [(settled & trace & ->)|[-> ->]]; eauto.
      * exact (LoopRun_after_dispatch _ _ _ _ _ _ Hloop i planResult Hi).
    + intros value Hvalue.
      destruct (LoopRun_records _ _ _ _ _ _ Hloop value Hvalue) as (_ & _ & -> & _).
      split; [|done].
      destruct (LoopRun_returned _ _ _ _ _ _ Hloop value Hvalue)
        as [[Hnil ->]|(planResult & Hlast & Hplanned)].
      * by exists plan0.
      * exists planResult. split; [|done].
        destruct (events _) as [|event trace]; [done|]. exact Hlast.
  - split_and!.
    + by intros [|i].
    + by intros [|i].
    + done.
Qed.

(** C6. In every run the planning calls and the dispatches alternate,
    starting with a planning call: in every prefix of the events there are
    as many dispatches as planning calls, or one fewer. The plan a call
    returns is dispatched right after the call, whether computed or read from
    the cache; the empty plan is dispatched after the warning when a
    re-planning call signals a cycle; a planning call that rejects otherwise
    ends the run. In a run that returns there is one dispatch and one
    planning record per planning call, each dispatch carrying that record. *)
Theorem planAndRefactor_dispatches_every_plan fuel input w :
  (∀ n,
     (length (dispatched (take n (events (run fuel input w)))) ≤
        length (planning_calls (take n (events (run fuel input w)))))%nat ∧
     (length (planning_calls (take n (events (run fuel input w)))) ≤
        S (length (dispatched (take n (events (run fuel input w))))))%nat) ∧
  (∀ i settled,
     events (run fuel input w) !! i = Some (PlanFilesCalled settled) →
     match settled with
     | Fulfilled planResult =>
         events (run fuel input w) !! (i + 1) =
           Some (Dispatched (planFilesComplete planResult))
     | RejectedWith err =>
         if instanceof_CycleDetectedError err && bool_decide (0 < i)%nat then
           (∃ result, events (run fuel input w) !! (i + 1) = Some (Warned err result)) ∧
           events (run fuel input w) !! (i + 2) =
             Some (Dispatched (planFilesComplete emptyPlan))
         else
           events (run fuel input w) !! (i + 1) = None ∧
           outcome (run fuel input w) = Rejected err
     end) ∧
  (∀ value,
     outcome (run fuel input w) = Returned value →
     length (dispatched (events (run fuel input w))) =
       length (planning_calls (events (run fuel input w))) ∧
     length (planning_calls (events (run fuel input w))) =
       length (planFilesResults value) ∧
     dispatched (events (run fuel input w)) =
       planFilesComplete <$> planFilesResults value).
Proof.
  rewrite planAndRefactor_unfold.
  destruct (planFiles input w) as [[plan0 |err0] w1]; cbv zeta; simpl.
  - pose proof (loop_LoopRun input fuel (plannedFiles plan0) emptyFilesResult [plan0]
                  (dispatch (planFilesComplete plan0) w1)) as Hloop.
    split_and!.
    + intros [|[|n]]; simpl; try lia.
      pose proof (LoopRun_alternation _ _ _ _ _ _ Hloop n). lia.
    + intros [|[|i]] settled Hi; simplify_eq/=; [done|].
      pose proof (LoopRun_after_planning _ _ _ _ _ _ Hloop i settled Hi) as Hafter.
      destruct settled as [planResult|err]; [done|].
      by rewrite andb_true_r.
    + intros value Hvalue.
      destruct (LoopRun_records _ _ _ _ _ _ Hloop value Hvalue) as (-> & -> & _ & _).
      simpl. rewrite !length_fmap, list_fmap_compose. done.
  - split_and!.
    + intros [|[|n]]; simpl; lia.
    + intros [|i] settled Hi; simplify_eq/=. by rewrite andb_false_r.
    + done.
Qed.

(** The first planning call of the loop, when the loop goes that far: a
    batch, its reset and its merge completed before it; an empty plan or a
    cycle signal ends the run there, with the batch merged and the plan, or
    the empty plan, as last record. *)
Lemma LoopRun_first_replan input planned files0 records w r :
  LoopRuns input planned files0 records w r →
  ∀ settled,
    planning_calls (events r) !! 0%nat = Some settled →
    ∃ result,
      mutateToMergeRefactorFilesResults_throws result files0 = None ∧
      batch_calls (events r) !! 0%nat = Some planned ∧
      batch_results (events r) !! 0%nat = Some result ∧
      ((∃ planResult, settled = Fulfilled planResult ∧ plannedFiles planResult = []) ∨
       (∃ err, settled = RejectedWith err ∧ instanceof_CycleDetectedError err = true) →
       outcome r =
         Returned {| files := mutateToMergeRefactorFilesResults result files0;
                     planFilesResults := records ++ [plan_of settled] |} ∧
       planning_calls (events r) = [settled] ∧
       batch_results (events r) = [result]).
Proof.
  intros Hrun settled Hsettled.
  destruct Hrun as [| | | | | |planned files0 records w result w1 u w2 planResult w3
                               next Hne Hbatch Hreset Hmerge Hplan Hnext|];
    simpl in Hsettled; simplify_eq/=.
  - exists result. split_and!; [done..|].
    intros [(planResult & ? & ?)|(err' & [= <-] & Hcycle)]; congruence.
  - exists result. split_and!; [done..|]. by intros _.
  - exists result. split_and!; [done..|].
    intros [(planResult' & [= <-] & Hnil)|(err' & ? & ?)]; [|done].
    destruct (LoopRun_head _ _ _ _ _ _ Hnext) as [Hempty _].
    by destruct (Hempty Hnil) as [-> ->].
Qed.

(** C8. The planning records of a run that returns are the plans of its
    planning calls, one per call and in call order: the plan returned, or the
    empty plan for a call that signalled a cycle (no call of such a run
    rejected otherwise). A run whose first plan is not empty and whose second
    planning call returns an empty plan returns with exactly these two
    records; the run gets there when the batch, the reset and the merge
    complete. *)
Theorem planAndRefactor_planning_records fuel input w :
  (∀ value,
     outcome (run fuel input w) = Returned value →
     planFilesResults value = plan_of <$> planning_calls (events (run fuel input w)) ∧
     ∀ err,
       RejectedWith err ∈ planning_calls (events (run fuel input w)) →
       instanceof_CycleDetectedError err = true) ∧
  (∀ plan1 plan2,
     planning_calls (events (run fuel input w)) !! 0%nat = Some (Fulfilled plan1) →
     plannedFiles plan1 ≠ [] →
     planning_calls (events (run fuel input w)) !! 1%nat = Some (Fulfilled plan2) →
     plannedFiles plan2 = [] →
     ∃ value,
       outcome (run fuel input w) = Returned value ∧
       planFilesResults value = [plan1; plan2] ∧
       planning_calls (events (run fuel input w)) = [Fulfilled plan1; Fulfilled plan2]) ∧
  (∀ plan1 w1 result w2 u w3 plan2 w4,
     planFiles input w = (Fulfilled plan1, w1) →
     plannedFiles plan1 ≠ [] →
     refactorBatch (plannedFiles plan1) input (dispatch (planFilesComplete plan1) w1) =
       (Fulfilled result, w2) →
     resetToLastAcceptedCommit (sandboxDirectoryPath input) result w2 =
       (Fulfilled u, w3) →
     mutateToMergeRefactorFilesResults_throws result emptyFilesResult = None →
     planFiles input w3 = (Fulfilled plan2, w4) →
     plannedFiles plan2 = [] →
     outcome (run (S fuel) input w) =
       Returned {| files := merge emptyFilesResult result;
                   planFilesResults := [plan1; plan2] |} ∧
     planning_calls (events (run (S fuel) input w)) = [Fulfilled plan1; Fulfilled plan2]).
Proof.
  split_and!.
  - rewrite planAndRefactor_unfold.
    destruct (planFiles input w) as [[plan0 |err0] w1]; cbv zeta; simpl; [|done].
    intros value Hvalue.
    destruct (LoopRun_records _ _ _ _ _ _ (loop_LoopRun _ _ _ _ _ _) value Hvalue)
      as (-> & _ & _ & Hcycles).
    split; [done|]. intros err [?|?]%elem_of_cons; [done|]. by apply Hcycles.
  - rewrite planAndRefactor_unfold.
    destruct (planFiles input w) as [[plan0 |err0] w1]; cbv zeta; simpl; [|done].
    intros plan1 plan2 [= <-] Hplanned Hplan2 Hnil.
    destruct (LoopRun_first_replan _ _ _ _ _ _ (loop_LoopRun _ _ _ _ _ _) _ Hplan2)
      as (result & _ & _ & _ & Hends).
    destruct Hends as (-> & -> & _); [left; eauto|]. eauto.
  - intros plan1 w1 result w2 u w3 plan2 w4
      Hplan1 Hplanned Hbatch Hreset Hmerge Hplan2 Hnil.
    rewrite planAndRefactor_unfold, Hplan1. cbv zeta.
    destruct (plannedFiles plan1) as [|file rest] eqn:Hfiles; [done|].
    rewrite loop_iteration. cbv zeta.
    rewrite Hbatch, Hreset, Hmerge, Hplan2, Hnil, loop_exit.
    done.
Qed.

(** C7, as the code has it. A run in which the planner returns ["a"; "b"]
    on the first call and whose second planning call rejects with a
    [CycleDetectedError] returns after that second call: two planning calls,
    one batch, on ["a"; "b"], and the results of that batch as the result.
    The run gets there when the batch, the reset and the merge complete. *)
Theorem planAndRefactor_cycle_on_second_plan fuel input w :
  (∀ plan1 message,
     planning_calls (events (run fuel input w)) !! 0%nat = Some (Fulfilled plan1) →
     plannedFiles plan1 = ["a"; "b"] →
     planning_calls (events (run fuel input w)) !! 1%nat =
       Some (RejectedWith (CycleDetectedError message)) →
     ∃ result,
       outcome (run fuel input w) =
         Returned {| files := result; planFilesResults := [plan1; emptyPlan] |} ∧
       planning_calls (events (run fuel input w)) =
         [Fulfilled plan1; RejectedWith (CycleDetectedError message)] ∧
       batch_calls (events (run fuel input w)) !! 0%nat = Some ["a"; "b"] ∧
       batch_results (events (run fuel input w)) = [result]) ∧
  (∀ plan1 w1 result w2 u w3 message w4,
     planFiles input w = (Fulfilled plan1, w1) →
     plannedFiles plan1 = ["a"; "b"] →
     refactorBatch ["a"; "b"] input (dispatch (planFilesComplete plan1) w1) =
       (Fulfilled result, w2) →
     resetToLastAcceptedCommit (sandboxDirectoryPath input) result w2 =
       (Fulfilled u, w3) →
     mutateToMergeRefactorFilesResults_throws result emptyFilesResult = None →
     planFiles input w3 = (RejectedWith (CycleDetectedError message), w4) →
     outcome (run (S fuel) input w) =
       Returned {| files := result; planFilesResults := [plan1; emptyPlan] |} ∧
     planning_calls (events (run (S fuel) input w)) =
       [Fulfilled plan1; RejectedWith (CycleDetectedError message)] ∧
     batch_results (events (run (S fuel) input w)) = [result]).
Proof.
  split.
  - rewrite planAndRefactor_unfold.
    destruct (planFiles input w) as [[plan0 |err0] w1]; cbv zeta; simpl; [|done].
    intros plan1 message [= <-] Hplanned Hplan2.
    destruct (LoopRun_first_replan _ _ _ _ _ _ (loop_LoopRun _ _ _ _ _ _) _ Hplan2)
      as (result & Hmerge & Hcall & _ & Hends).
    destruct Hends as (-> & -> & ->); [right; eauto|].
    exists result. rewrite Hcall, Hplanned.
    split_and!; [|done..]. do 2 f_equal. exact (merge_emptyFilesResult result Hmerge).
  - intros plan1 w1 result w2 u w3 message w4
      Hplan1 Hplanned Hbatch Hreset Hmerge Hplan2.
    rewrite planAndRefactor_unfold, Hplan1. cbv zeta.
    rewrite Hplanned, loop_iteration. cbv zeta. rewrite Hbatch, Hreset, Hmerge, Hplan2.
    cbn [instanceof_CycleDetectedError outcome events planning_calls batch_results app].
    split; [|done]. do 2 f_equal. exact (merge_emptyFilesResult result Hmerge).
Qed.
End PlanAndRefactorProperties.

Lemma planAndRefactor_replanning_rejected_cycle :
  ∃ records result,
    outcome (Scripted.planAndRefactor 1 Scripted.input Scripted.cycling) =
      Returned
        {| files :=
             accumulate emptyFilesResult
               (batch_results
                  (take 5
                     (events (Scripted.planAndRefactor 1 Scripted.input Scripted.cycling))));
           planFilesResults := records ++ [emptyPlan] |} ∧
    drop 6 (events (Scripted.planAndRefactor 1 Scripted.input Scripted.cycling)) =
      [Warned (CycleDetectedError "cycle") result;
       Dispatched (planFilesComplete emptyPlan)].
Proof.
  apply (planAndRefactor_replanning_rejected
           Scripted.planFiles Scripted.refactorBatch Scripted.resetToLastAcceptedCommit
           Scripted.logger_warn Scripted.dispatch
           1 Scripted.input Scripted.cycling 5 (CycleDetectedError "cycle")).
  - lia.
  - vm_compute. reflexivity.
Defined.

(** ** The theorems at work on scripted collaborators *)

Lemma enrichObjective_enriches_answer :
  Chat.enrichObjective Chat.input (Fulfilled Chat.answered) =
    (Fulfilled {| enrichedObjective :=
                    "rename f to g" +:+ newline +:+ newline +:+ "f is used in a.ts." |},
     Fulfilled Chat.answered).
Proof.
  pose proof (enrichObjective_throws_or_enriches Chat.role Chat.functionCall_in
                Chat.content Chat.trim Chat.prompt Chat.input
                (Fulfilled Chat.answered)) as [_ [Hthrows|Henriched]].
  - exfalso. destruct Hthrows as [Hnil|[(m & Hm & Hrole)|(m & Hm & Hcall)]].
    + discriminate Hnil.
    + injection Hm as <-. by apply Hrole.
    + injection Hm as <-. discriminate Hcall.
  - destruct Henriched as (m & Hm & _ & _ & Henriched).
    injection Hm as <-. exact Henriched.
Defined.

Lemma planAndRefactor_iteration_order_finishing :
  ["a"; "b"] ≠ [] ∧
  ∃ value, outcome (Scripted.planAndRefactor 1 Scripted.input Scripted.finishing) =
             Returned value.
Proof.
  destruct (planAndRefactor_iteration_order
              Scripted.planFiles Scripted.refactorBatch
              Scripted.resetToLastAcceptedCommit Scripted.logger_warn Scripted.dispatch
              1 Scripted.input Scripted.finishing) as (Hbatch & Hdispatch & _).
  split.
  - apply (Hbatch 2%nat ["a"; "b"] (Fulfilled Scripted.batch1)).
    vm_compute. reflexivity.
  - apply (Hdispatch 6%nat emptyPlan); [vm_compute|]; reflexivity.
Defined.

Lemma planAndRefactor_dispatches_every_plan_finishing :
  length (dispatched (events (Scripted.planAndRefactor 1 Scripted.input Scripted.finishing))) =
    length (planning_calls
              (events (Scripted.planAndRefactor 1 Scripted.input Scripted.finishing))) ∧
  events (Scripted.planAndRefactor 1 Scripted.input Scripted.finishing) !! (5 + 1)%nat =
    Some (Dispatched (planFilesComplete emptyPlan)).
Proof.
  destruct (planAndRefactor_dispatches_every_plan
              Scripted.planFiles Scripted.refactorBatch
              Scripted.resetToLastAcceptedCommit Scripted.logger_warn Scripted.dispatch
              1 Scripted.input Scripted.finishing) as (_ & Hafter & Hcount).
  split.
  - eapply Hcount. vm_compute. reflexivity.
  - apply (Hafter 5%nat (Fulfilled emptyPlan)). vm_compute. reflexivity.
Defined.

Lemma planAndRefactor_planning_records_finishing :
  ∃ value,
    outcome (Scripted.planAndRefactor 1 Scripted.input Scripted.finishing) =
      Returned value ∧
    planFilesResults value = [Scripted.planAB; emptyPlan] ∧
    planning_calls (events (Scripted.planAndRefactor 1 Scripted.input Scripted.finishing)) =
      [Fulfilled Scripted.planAB; Fulfilled emptyPlan].
Proof.
  destruct (planAndRefactor_planning_records
              Scripted.planFiles Scripted.refactorBatch
              Scripted.resetToLastAcceptedCommit Scripted.logger_warn Scripted.dispatch
              1 Scripted.input Scripted.finishing) as (_ & Htrace & _).
  apply Htrace.
  - vm_compute. reflexivity.
  - discriminate.
  - vm_compute. reflexivity.
  - reflexivity.
Defined.

Lemma planAndRefactor_cycle_on_second_plan_cycling :
  ∃ result,
    outcome (Scripted.planAndRefactor 1 Scripted.input Scripted.cycling) =
      Returned {| files := result; planFilesResults := [Scripted.planAB; emptyPlan] |} ∧
    planning_calls (events (Scripted.planAndRefactor 1 Scripted.input Scripted.cycling)) =
      [Fulfilled Scripted.planAB; RejectedWith (CycleDetectedError "cycle")] ∧
    batch_calls (events (Scripted.planAndRefactor 1 Scripted.input Scripted.cycling))
      !! 0%nat = Some ["a"; "b"] ∧
    batch_results (events (Scripted.planAndRefactor 1 Scripted.input Scripted.cycling)) =
      [result].
Proof.
  destruct (planAndRefactor_cycle_on_second_plan
              Scripted.planFiles Scripted.refactorBatch
              Scripted.resetToLastAcceptedCommit Scripted.logger_warn Scripted.dispatch
              1 Scripted.input Scripted.cycling) as [Htrace _].
  apply Htrace.
  - vm_compute. reflexivity.
  - reflexivity.
  - vm_compute. reflexivity.
Defined.

(** The run on the repeating planner: three planning calls, two batches,
    both merged into the result. *)
Example planAndRefactor_repeating :
  outcome (Scripted.planAndRefactor 2 Scripted.input Scripted.repeating) =
    Returned
      {| files := merge (merge emptyFilesResult Scripted.batch1) Scripted.batch2;
         planFilesResults := [Scripted.planAB; Scripted.planAB; emptyPlan] |} ∧
  entries
    (accepted (merge (merge emptyFilesResult Scripted.batch1) Scripted.batch2)) "a" =
    [Scripted.success "a" "c1"; Scripted.success "a" "c2"].
Proof. split; vm_compute; reflexivity. Qed.

(** C7, as the specification words it, fails: when the planner returns
    ["a"; "b"] twice and raises nothing, the loop runs a second batch and
    plans a third time; no amount of fuel makes the run return after two
    planning calls. *)
Lemma repeated_plan_runs_second_batch :
  ¬ returns_after_repeated_plan
      Scripted.planFiles Scripted.refactorBatch Scripted.resetToLastAcceptedCommit
      Scripted.logger_warn Scripted.dispatch Scripted.input Scripted.repeating.
Proof.
  intros Hclaim.
  edestruct Hclaim as (fuel & value & Hout & Hfiles & Hcalls); [reflexivity..|].
  destruct fuel as [|[|[|fuel]]]; vm_compute in Hcalls; discriminate.
Qed.

(** * Further properties *)

(** ** Records of results per file path *)

Lemma pushRefactorFileResults_as_entry (result : RefactorResult)
    (into : gmap string (list RefactorResult)) :
  pushRefactorFileResults result into =
    after (mergeEntry into (filePath result, [result])).
Proof.
  unfold pushRefactorFileResults, pushRefactorFileResults_call, mergeEntry.
  by destruct (get into (filePath result)).
Qed.

Lemma pushRefactorFileResults_throws_blocks (result : RefactorResult)
    (into : gmap string (list RefactorResult)) :
  pushRefactorFileResults_throws result into =
    if blocks into (filePath result) then Some (TypeError "array.push is not a function")
    else None.
Proof.
  unfold pushRefactorFileResults_throws, pushRefactorFileResults_call, blocks.
  by destruct (get into (filePath result)).
Qed.






Lemma mergeEntries_keyed {A : Type} `{FileResult A} (l : list (string * list A)) :
  Forall (λ entry, Forall (λ r, filePath r = entry.1) entry.2) l →
  ∀ into : gmap string (list A), keyed into → keyed (after (mergeEntries into l)).
Proof.
  induction 1 as [|[file tasks] l Htasks _ IH]; intros into Hinto; cbn [mergeEntries].
  - done.
  - assert (Hprevious : Forall (λ r, filePath r = file) (entries into file)).
    { unfold entries. destruct (into !! file) as [existing|] eqn:Hfile.
      - exact (Hinto _ _ Hfile).
      - constructor. }
    assert (Hstep : keyed (after (mergeEntry into (file, tasks)))).
    { intros key results. rewrite mergeEntry_after.
      case_decide as Hkey; [|apply Hinto].
      destruct (blocks into file); [apply Hinto|].
      subst key. intros Hresults. apply (inj Some) in Hresults. subst results.
      apply Forall_app. by split. }
    cbv zeta. destruct (thrown (mergeEntry into (file, tasks))); [done|].
    by apply IH.
Qed.

Lemma keyed_merged {A : Type} `{FileResult A} (from into : gmap string (list A)) :
  keyed from → keyed into → keyed (mutateToMergeRefactorRecords from into).
Proof.
  intros Hfrom Hinto.
  unfold mutateToMergeRefactorRecords, mutateToMergeRefactorRecords_call.
  apply mergeEntries_keyed; [|done].
  apply Forall_forall. intros [key tasks] Hin%elem_of_map_to_list. by apply Hfrom.
Qed.

(** [mutateToMergeRefactorRecords] keeps every result filed under its own
    path, when both records do. *)
Theorem mutateToMergeRefactorRecords_keyed {A : Type} `{FileResult A}
    (from into : gmap string (list A)) :
  keyed from → keyed into → keyed (mutateToMergeRefactorRecords from into).
Proof. apply keyed_merged. Qed.

Lemma keyed_merged_files (from into : RefactorFilesResult) :
  keyed (accepted from) → keyed (discarded from) →
  keyed (accepted into) → keyed (discarded into) →
  keyed (accepted (mutateToMergeRefactorFilesResults from into)) ∧
  keyed (discarded (mutateToMergeRefactorFilesResults from into)).
Proof.
  intros Hfa Hfd Hia Hid.
  pose proof (keyed_merged _ _ Hfa Hia) as Hacc.
  pose proof (keyed_merged _ _ Hfd Hid) as Hdisc.
  unfold mutateToMergeRefactorFilesResults, mutateToMergeRefactorFilesResults_call.
  unfold mutateToMergeRefactorRecords in Hacc, Hdisc. cbv zeta.
  by destruct (thrown (mutateToMergeRefactorRecords_call (accepted from) (accepted into))).
Qed.

Lemma mergeEntries_dom {A : Type} (l : list (string * list A)) :
  ∀ into : gmap string (list A),
    dom into ⊆ dom (after (mergeEntries into l)) ∧
    dom (after (mergeEntries into l)) ⊆ dom into ∪ list_to_set l.*1.
Proof.
  induction l as [|[file tasks] l IH]; intros into; cbn [mergeEntries].
  - split; [done|apply union_subseteq_l].
  - assert (Hstep : dom into ⊆ dom (after (mergeEntry into (file, tasks))) ∧
                    dom (after (mergeEntry into (file, tasks))) ⊆ dom into ∪ {[file]}).
    { unfold mergeEntry. destruct (get into file); cbn [after];
        rewrite ?dom_insert_L; (split; [|rewrite (union_comm_L (dom into))]);
        first [done|apply union_subseteq_l|apply union_subseteq_r]. }
    destruct Hstep as [Hkept Hadded].
    cbv zeta. rewrite fmap_cons, list_to_set_cons. cbn [fst]. rewrite (assoc_L (∪)).
    destruct (thrown (mergeEntry into (file, tasks))).
    + split; [done|]. etrans; [exact Hadded|apply union_subseteq_l].
    + destruct (IH (after (mergeEntry into (file, tasks)))) as [Hkept' Hadded'].
      split; [by etrans|]. etrans; [exact Hadded'|]. by apply union_mono_r.
Qed.

(** Keys are never lost and never made up: after a merge, thrown or not,
    the keys of [into] are its previous keys and some keys of [from], all of
    them when the merge completes; after a push they are the previous keys
    and, when the push completes, the path of the result. *)
Theorem mutateToMergeRefactorRecords_dom {A : Type}
    (from into : gmap string (list A)) (result : RefactorResult)
    (record : gmap string (list RefactorResult)) :
  dom into ⊆ dom (mutateToMergeRefactorRecords from into) ∧
  dom (mutateToMergeRefactorRecords from into) ⊆ dom into ∪ dom from ∧
  (mutateToMergeRefactorRecords_throws from into = None →
   dom (mutateToMergeRefactorRecords from into) = dom into ∪ dom from) ∧
  dom (pushRefactorFileResults result record) =
    if blocks record (filePath result) then dom record
    else {[filePath result]} ∪ dom record.
Proof.
  split_and!.
  - apply mergeEntries_dom.
  - unfold mutateToMergeRefactorRecords, mutateToMergeRefactorRecords_call.
    destruct (mergeEntries_dom (map_to_list from) into) as [_ Hdom].
    intros key Hkey. apply Hdom in Hkey.
    apply elem_of_union in Hkey as [Hkey|Hkey]; [by apply elem_of_union_l|].
    apply elem_of_union_r. apply elem_of_list_to_set in Hkey.
    apply list_elem_of_fmap in Hkey as ([k tasks] & -> & Hin%elem_of_map_to_list).
    apply elem_of_dom. by exists tasks.
  - intros Hthrown. apply set_eq. intros key. rewrite elem_of_union, !elem_of_dom.
    rewrite mutateToMergeRefactorRecords_lookup by done.
    destruct (into !! key), (from !! key); rewrite !is_Some_alt; simpl; tauto.
  - rewrite pushRefactorFileResults_as_entry. unfold mergeEntry, blocks.
    destruct (get record (filePath result)); cbn [after]; by rewrite ?dom_insert_L.
Qed.


(** On results without a common key, each of which merges into the other,
    the merge does not depend on which one is merged into the other. *)
Theorem mutateToMergeRefactorFilesResults_disjoint_comm (a b : RefactorFilesResult) :
  accepted a ##ₘ accepted b →
  discarded a ##ₘ discarded b →
  mutateToMergeRefactorFilesResults_throws a b = None →
  mutateToMergeRefactorFilesResults_throws b a = None →
  mutateToMergeRefactorFilesResults a b = mutateToMergeRefactorFilesResults b a.
Proof.
  intros Hacc Hdisc Hab Hba.
  rewrite !mutateToMergeRefactorFilesResults_after by done.
  destruct (proj1 (mutateToMergeRefactorFilesResults_throws_None _ _) Hab) as [Hab1 Hab2].
  destruct (proj1 (mutateToMergeRefactorFilesResults_throws_None _ _) Hba) as [Hba1 Hba2].
  f_equal.
  - apply map_eq. intros key. rewrite !mutateToMergeRefactorRecords_lookup by done.
    specialize (Hacc key).
    destruct (accepted a !! key), (accepted b !! key); simpl in *; done.
  - apply map_eq. intros key. rewrite !mutateToMergeRefactorRecords_lookup by done.
    specialize (Hdisc key).
    destruct (discarded a !! key), (discarded b !! key); simpl in *; done.
Qed.

(** The merge never removes duplicates: merging a record into itself
    doubles the entries of every key. *)
Theorem mutateToMergeRefactorRecords_self {A : Type} (record : gmap string (list A)) :
  mutateToMergeRefactorRecords record record = (λ results, results ++ results) <$> record.
Proof.
  assert (Hthrown : mutateToMergeRefactorRecords_throws record record = None).
  { apply mutateToMergeRefactorRecords_throws_None. intros key. apply blocks_own. }
  apply map_eq. intros key.
  rewrite mutateToMergeRefactorRecords_lookup by done. rewrite lookup_fmap.
  by destruct (record !! key).
Qed.

(** [lastCommit] of two histories put one after the other is that of the
    later one when it has steps, and that of the earlier one otherwise. *)
Theorem lastCommit_app {T : Type} `{HasCommit T} (steps more : list T) :
  lastCommit (steps ++ more) =
    match lastCommit more with
    | Some commitId => Some commitId
    | None => lastCommit steps
    end.
Proof.
  unfold lastCommit. rewrite !array_get_last.
  destruct more as [|step more _] using rev_ind.
  - by rewrite app_nil_r.
  - by rewrite app_assoc, !last_snoc.
Qed.

Lemma completed_merge_entries (from into : RefactorFilesResult) (key : string) :
  mutateToMergeRefactorFilesResults_throws from into = None →
  entries (accepted (mutateToMergeRefactorFilesResults from into)) key =
    entries (accepted into) key ++ entries (accepted from) key ∧
  entries (discarded (mutateToMergeRefactorFilesResults from into)) key =
    entries (discarded into) key ++ entries (discarded from) key.
Proof.
  intros Hthrown. rewrite mutateToMergeRefactorFilesResults_after by done.
  destruct (proj1 (mutateToMergeRefactorFilesResults_throws_None _ _) Hthrown).
  cbn [accepted discarded]. by rewrite !mutateToMergeRefactorRecords_entries.
Qed.

(** A merge that completes makes, under every file path, the accepted
    entries of [into] its previous accepted entries followed by those of
    [from], and its discarded entries its previous discarded entries followed
    by those of [from] (an absent key counts as no entries). *)
Theorem mutateToMergeRefactorFilesResults_completed_concatenates
    (from into : RefactorFilesResult) (key : string) :
  mutateToMergeRefactorFilesResults_throws from into = None →
  entries (accepted (mutateToMergeRefactorFilesResults from into)) key =
    entries (accepted into) key ++ entries (accepted from) key ∧
  entries (discarded (mutateToMergeRefactorFilesResults from into)) key =
    entries (discarded into) key ++ entries (discarded from) key.
Proof. apply completed_merge_entries. Qed.

(** On merges that complete, the empty result is a left identity and the
    merge is associative; merging the empty result never throws and changes
    nothing. *)
Theorem merge_completed_identity_and_associative :
  (∀ x : RefactorFilesResult,
     mutateToMergeRefactorFilesResults_throws x emptyFilesResult = None →
     merge emptyFilesResult x = x) ∧
  (∀ x : RefactorFilesResult,
     mutateToMergeRefactorFilesResults_throws emptyFilesResult x = None ∧
     merge x emptyFilesResult = x) ∧
  (∀ a b c : RefactorFilesResult,
     mutateToMergeRefactorFilesResults_throws b a = None →
     mutateToMergeRefactorFilesResults_throws c (merge a b) = None →
     mutateToMergeRefactorFilesResults_throws c b = None →
     mutateToMergeRefactorFilesResults_throws (merge b c) a = None →
     merge (merge a b) c = merge a (merge b c)).
Proof.
  split_and!.
  - exact merge_emptyFilesResult.
  - intros [acc disc].
    assert (Hthrown : mutateToMergeRefactorFilesResults_throws emptyFilesResult
                        {| accepted := acc; discarded := disc |} = None).
    { apply mutateToMergeRefactorFilesResults_throws_None.
      split; apply mutateToMergeRefactorRecords_empty_from. }
    split; [done|]. unfold merge.
    rewrite mutateToMergeRefactorFilesResults_after by done. cbn [accepted discarded].
    f_equal; apply mutateToMergeRefactorRecords_empty_from.
  - intros a b c Hab Habc Hbc Ha_bc. unfold merge in *.
    rewrite (mutateToMergeRefactorFilesResults_after c _ Habc).
    rewrite (mutateToMergeRefactorFilesResults_after _ a Ha_bc).
    destruct (proj1 (mutateToMergeRefactorFilesResults_throws_None _ _) Habc)
      as [Habc1 Habc2].
    destruct (proj1 (mutateToMergeRefactorFilesResults_throws_None _ _) Ha_bc)
      as [Ha_bc1 Ha_bc2].
    destruct (proj1 (mutateToMergeRefactorFilesResults_throws_None _ _) Hab)
      as [Hab1 Hab2].
    destruct (proj1 (mutateToMergeRefactorFilesResults_throws_None _ _) Hbc)
      as [Hbc1 Hbc2].
    rewrite (mutateToMergeRefactorFilesResults_after b a Hab) in *.
    rewrite (mutateToMergeRefactorFilesResults_after c b Hbc) in *.
    cbn [accepted discarded] in *.
    f_equal; apply map_eq; intros key;
      rewrite !mutateToMergeRefactorRecords_lookup by done.
    + destruct (accepted a !! key), (accepted b !! key), (accepted c !! key); simpl;
        by rewrite ?app_assoc.
    + destruct (discarded a !! key), (discarded b !! key), (discarded c !! key); simpl;
        by rewrite ?app_assoc.
Qed.


(** The two functions throw, a [TypeError], exactly when a key they look up
    in [into] is the name of a member of [Object.prototype] and not an own
    key of [into]: the path of the pushed result, or an own key of [from]. *)
Theorem inherited_member_throws {A : Type}
    (from into : gmap string (list A)) (result : RefactorResult)
    (record : gmap string (list RefactorResult)) :
  (mutateToMergeRefactorRecords_throws from into = None ↔
   ∀ key, is_Some (from !! key) → inherited key = true → is_Some (into !! key)) ∧
  (∀ err, mutateToMergeRefactorRecords_throws from into = Some err →
          err = TypeError "existing.concat is not a function") ∧
  (pushRefactorFileResults_throws result record = None ↔
   (inherited (filePath result) = true → is_Some (record !! filePath result))) ∧
  (∀ err, pushRefactorFileResults_throws result record = Some err →
          err = TypeError "array.push is not a function").
Proof.
  assert (Hblocks : ∀ (B : Type) (object : gmap string (list B)) key,
            blocks object key = false ↔ (inherited key = true → is_Some (object !! key))).
  { intros B object key. unfold blocks, get.
    destruct (object !! key), (inherited key); (split; [by eauto|]); try done.
    intros Hown. by destruct (Hown eq_refl) as [? ?]. }
  split_and!.
  - rewrite mutateToMergeRefactorRecords_throws_None.
    split; intros Hfree key Hkey; apply Hblocks; eauto.
  - intros err Herr. by apply (mutateToMergeRefactorRecords_throws_Some _ _ _ Herr).
  - rewrite pushRefactorFileResults_throws_blocks, <- Hblocks.
    by destruct (blocks record (filePath result)).
  - intros err. rewrite pushRefactorFileResults_throws_blocks.
    destruct (blocks record (filePath result)); congruence.
Qed.

(** ** [planAndRefactor] *)

Lemma accumulate_keyed (into : RefactorFilesResult) (results : list RefactorFilesResult) :
  keyed (accepted into) → keyed (discarded into) →
  Forall (λ result, keyed (accepted result) ∧ keyed (discarded result)) results →
  keyed (accepted (accumulate into results)) ∧ keyed (discarded (accumulate into results)).
Proof.
  intros Hacc Hdisc Hresults. revert into Hacc Hdisc.
  induction Hresults as [|result results [Hracc Hrdisc] _ IH]; intros into Hacc Hdisc.
  - done.
  - unfold accumulate in *. cbn [foldl].
    by apply IH; apply keyed_merged_files.
Qed.

Lemma keyed_empty {A : Type} `{FileResult A} : keyed (∅ : gmap string (list A)).
Proof. intros key results Hlookup. by rewrite lookup_empty in Hlookup. Qed.

Section PlanAndRefactorFurther.
Context {W : Type}.
Variable planFiles : planAndRefactorInput → W → Settled PlanFilesResult * W.
Variable refactorBatch :
  list string → planAndRefactorInput → W → Settled RefactorFilesResult * W.
Variable resetToLastAcceptedCommit :
  string → RefactorFilesResult → W → Settled unit * W.
Variable logger_warn : Thrown → RefactorFilesResult → W → W.
Variable dispatch : Action → W → W.

Local Abbreviation loop :=
  (while_plannedFiles planFiles refactorBatch resetToLastAcceptedCommit
     logger_warn dispatch).
Local Abbreviation run :=
  (planAndRefactor planFiles refactorBatch resetToLastAcceptedCommit
     logger_warn dispatch).
Local Abbreviation LoopRuns :=
  (LoopRun planFiles refactorBatch resetToLastAcceptedCommit logger_warn dispatch).

Lemma LoopRun_batch_rejected input planned files0 records w r :
  LoopRuns input planned files0 records w r →
  ∀ i batch err,
    events r !! i = Some (RefactorBatchCalled batch (RejectedWith err)) →
    outcome r = Rejected err ∧ events r !! (i + 1) = None.
Proof.
  induction 1 as [| | | | | |planned files0 records w result w1 u w2 planResult w3
                             next Hne Hbatch Hreset Hmerge Hplan Hnext IH|];
    intros i batch e Hi; simpl in Hi.
  - done.
  - done.
  - by destruct i as [|[|i]]; simplify_eq/=.
  - by destruct i as [|[|[|i]]].
  - by destruct i as [|[|[|[|[|i]]]]].
  - by destruct i as [|[|[|[|[|[|[|i]]]]]]].
  - destruct i as [|[|[|[|[|i]]]]]; simplify_eq/=. exact (IH i batch e Hi).
  - by destruct i as [|[|[|i]]].
Qed.

Lemma LoopRun_reset_rejected input planned files0 records w r :
  LoopRuns input planned files0 records w r →
  ∀ i location result err,
    events r !! i =
      Some (ResetToLastAcceptedCommitCalled location result (RejectedWith err)) →
    outcome r = Rejected err ∧
    events r !! (i + 1) = None ∧
    ∃ j batch,
      i = S j ∧ events r !! j = Some (RefactorBatchCalled batch (Fulfilled result)).
Proof.
  induction 1 as [| | | | | |planned files0 records w result w1 u w2 planResult w3
                             next Hne Hbatch Hreset Hmerge Hplan Hnext IH|];
    intros i location res e Hi; simpl in Hi.
  - done.
  - done.
  - by destruct i as [|[|i]].
  - destruct i as [|[|[|i]]]; simplify_eq/=. eauto 6.
  - by destruct i as [|[|[|[|[|i]]]]].
  - by destruct i as [|[|[|[|[|[|[|i]]]]]]].
  - destruct i as [|[|[|[|[|i]]]]]; simplify_eq/=.
    destruct (IH i location res e Hi) as (Hout & Hlast & j & batch & -> & Hj).
    split_and!; [done..|]. by exists (S (S (S (S (S j))))), batch.
  - by destruct i as [|[|[|i]]].
Qed.

(** The plans of a run of the loop that returns: the batches were run on
    the list the loop was entered with and on the plans made since, all but
    the last of them, which is empty; no batch was run on an empty list. *)
Lemma LoopRun_plans input planned files0 records w r :
  LoopRuns input planned files0 records w r →
  ∀ value,
    outcome r = Returned value →
    ∃ more,
      planFilesResults value = records ++ more ∧
      planned :: (plannedFiles <$> more) = batch_calls (events r) ++ [[]] ∧
      Forall (λ batch, batch ≠ []) (batch_calls (events r)).
Proof.
  induction 1 as [| | | | | |planned files0 records w result w1 u w2 planResult w3
                             next Hne Hbatch Hreset Hmerge Hplan Hnext IH|];
    intros value Hvalue; simpl in Hvalue; simplify_eq/=.
  - exists []. by rewrite app_nil_r.
  - exists [emptyPlan]. split_and!; [done..|]. by repeat constructor.
  - destruct (IH value Hvalue) as (more & -> & Hplans & Hbatches).
    exists (planResult :: more). rewrite <- app_assoc. split_and!; [done| |].
    + cbn [events batch_calls]. by rewrite fmap_cons, Hplans.
    + by constructor.
Qed.

Lemma LoopRun_warned input planned files0 records w r :
  LoopRuns input planned files0 records w r →
  ∀ i err result,
    events r !! i = Some (Warned err result) →
    instanceof_CycleDetectedError err = true ∧
    (∃ j batch,
       i = (4 + j)%nat ∧
       events r !! j = Some (RefactorBatchCalled batch (Fulfilled result)) ∧
       events r !! (3 + j)%nat = Some (PlanFilesCalled (RejectedWith err))) ∧
    events r !! (i + 1) = Some (Dispatched (planFilesComplete emptyPlan)) ∧
    events r !! (i + 2) = None ∧
    ∃ value, outcome r = Returned value.
Proof.
  induction 1 as [| | | | | |planned files0 records w result w1 u w2 planResult w3
                             next Hne Hbatch Hreset Hmerge Hplan Hnext IH|];
    intros i e res Hi; simpl in Hi.
  - done.
  - done.
  - by destruct i as [|[|i]].
  - by destruct i as [|[|[|i]]].
  - by destruct i as [|[|[|[|[|i]]]]].
  - destruct i as [|[|[|[|[|[|[|i]]]]]]]; simplify_eq/=.
    split_and!; [done| |done|done|eauto]. by exists 0%nat, planned.
  - destruct i as [|[|[|[|[|i]]]]]; simplify_eq/=.
    destruct (IH i e res Hi) as (Hcycle & (j & batch & -> & Hj & Hj3) & Hnext1 & Hnext2 & Hret).
    split_and!; [done| |done..].
    by exists (5 + j)%nat, batch.
  - by destruct i as [|[|[|i]]].
Qed.

Lemma LoopRun_history input planned files0 records w r :
  LoopRuns input planned files0 records w r →
  ∀ value key,
    outcome r = Returned value →
    entries (accepted (files value)) key =
      entries (accepted files0) key ++
      concat ((λ result, entries (accepted result) key) <$> batch_results (events r)) ∧
    entries (discarded (files value)) key =
      entries (discarded files0) key ++
      concat ((λ result, entries (discarded result) key) <$> batch_results (events r)).
Proof.
  induction 1 as [| | | | | |planned files0 records w result w1 u w2 planResult w3
                             next Hne Hbatch Hreset Hmerge Hplan Hnext IH|];
    intros value key Hvalue; simpl in Hvalue; simplify_eq/=.
  - by rewrite !app_nil_r.
  - rewrite !app_nil_r. by apply completed_merge_entries.
  - destruct (IH value key Hvalue) as [-> ->].
    destruct (completed_merge_entries result files0 key Hmerge) as [-> ->].
    by rewrite <- !app_assoc.
Qed.

(** The first planning call is outside the loop and its [catch]: a run
    whose first call of [planFiles] rejects, with a [CycleDetectedError] or
    anything else, rejects with that error after that one call; nothing is
    dispatched. *)
Theorem planAndRefactor_first_plan_unguarded fuel input w err w1 :
  planFiles input w = (RejectedWith err, w1) →
  outcome (run fuel input w) = Rejected err ∧
  world (run fuel input w) = w1 ∧
  events (run fuel input w) = [PlanFilesCalled (RejectedWith err)] ∧
  dispatched (events (run fuel input w)) = [].
Proof. intros Hplan. by rewrite planAndRefactor_unfold, Hplan. Qed.

(** The merge is outside every [catch]: when the first batch brings a key
    that meets an inherited member of the empty accumulator, the merge throws
    and the run rejects with that error right after the reset; no further
    planning call is made and nothing is returned. *)
Theorem planAndRefactor_merge_throws fuel input w plan w1 result w2 u w3 err :
  planFiles input w = (Fulfilled plan, w1) →
  plannedFiles plan ≠ [] →
  refactorBatch (plannedFiles plan) input (dispatch (planFilesComplete plan) w1) =
    (Fulfilled result, w2) →
  resetToLastAcceptedCommit (sandboxDirectoryPath input) result w2 = (Fulfilled u, w3) →
  mutateToMergeRefactorFilesResults_throws result emptyFilesResult = Some err →
  run (S fuel) input w =
    mkRun (Rejected err) w3
      [PlanFilesCalled (Fulfilled plan);
       Dispatched (planFilesComplete plan);
       RefactorBatchCalled (plannedFiles plan) (Fulfilled result);
       ResetToLastAcceptedCommitCalled (sandboxDirectoryPath input) result (Fulfilled u);
       Merged result].
Proof.
  intros Hplan Hne Hbatch Hreset Hthrown. rewrite planAndRefactor_unfold, Hplan.
  cbv zeta. destruct (plannedFiles plan) as [|file rest] eqn:Hplanned; [done|].
  rewrite loop_iteration. cbv zeta. by rewrite Hbatch, Hreset, Hthrown.
Qed.

(** When the first plan is empty the run returns at once, whatever the
    fuel: empty accepted and discarded records, the one planning record, one
    dispatch, and no call of [refactorBatch] or [resetToLastAcceptedCommit]. *)
Theorem planAndRefactor_nothing_planned fuel input w planResult w1 :
  planFiles input w = (Fulfilled planResult, w1) →
  plannedFiles planResult = [] →
  run fuel input w =
    mkRun
      (Returned {| files := {| accepted := ∅; discarded := ∅ |};
                   planFilesResults := [planResult] |})
      (dispatch (planFilesComplete planResult) w1)
      [PlanFilesCalled (Fulfilled planResult);
       Dispatched (planFilesComplete planResult)].
Proof.
  intros Hplan Hnil. rewrite planAndRefactor_unfold, Hplan. cbv zeta.
  by rewrite Hnil, loop_exit.
Qed.

(** A call of [refactorBatch] that rejects ends the run with its error:
    nothing follows it, neither a reset nor a further planning call. *)
Theorem planAndRefactor_batch_rejected fuel input w i batch err :
  events (run fuel input w) !! i = Some (RefactorBatchCalled batch (RejectedWith err)) →
  outcome (run fuel input w) = Rejected err ∧
  events (run fuel input w) !! (i + 1) = None.
Proof.
  rewrite planAndRefactor_unfold.
  destruct (planFiles input w) as [[plan0 |err0] w1]; cbv zeta; simpl.
  - destruct i as [|[|i]]; [done..|]. simpl. intros Hi.
    exact (LoopRun_batch_rejected _ _ _ _ _ _ (loop_LoopRun _ _ _ _ _ _ _ _ _ _ _)
             i batch err Hi).
  - by destruct i as [|i].
Qed.

(** A call of [resetToLastAcceptedCommit] that rejects ends the run with its
    error: it follows the batch whose result it was given, and nothing
    follows it, so that result is neither merged nor returned. *)
Theorem planAndRefactor_reset_rejected fuel input w i location result err :
  events (run fuel input w) !! i =
    Some (ResetToLastAcceptedCommitCalled location result (RejectedWith err)) →
  outcome (run fuel input w) = Rejected err ∧
  events (run fuel input w) !! (i + 1) = None ∧
  ∃ j batch,
    i = S j ∧
    events (run fuel input w) !! j = Some (RefactorBatchCalled batch (Fulfilled result)).
Proof.
  rewrite planAndRefactor_unfold.
  destruct (planFiles input w) as [[plan0 |err0] w1]; cbv zeta; simpl.
  - destruct i as [|[|i]]; [done..|]. simpl. intros Hi.
    destruct (LoopRun_reset_rejected _ _ _ _ _ _ (loop_LoopRun _ _ _ _ _ _ _ _ _ _ _)
                i location result err Hi) as (Hout & Hlast & j & b & -> & Hj).
    split_and!; [done..|]. by exists (S (S j)), b.
  - by destruct i as [|i].
Qed.

(** The planning records of a run that returns and its batches match: the
    batches were run on the planned files of the records, in order, all but
    the last record; the last record plans nothing and every other record
    plans something. *)
Theorem planAndRefactor_batches_follow_plans fuel input w value :
  outcome (run fuel input w) = Returned value →
  plannedFiles <$> planFilesResults value =
    batch_calls (events (run fuel input w)) ++ [[]] ∧
  Forall (λ batch, batch ≠ []) (batch_calls (events (run fuel input w))) ∧
  length (planFilesResults value) = S (length (batch_calls (events (run fuel input w)))).
Proof.
  rewrite planAndRefactor_unfold.
  destruct (planFiles input w) as [[plan0 |err0] w1]; cbv zeta; simpl; [|done].
  intros Hvalue.
  pose proof (loop_LoopRun planFiles refactorBatch resetToLastAcceptedCommit
                logger_warn dispatch input fuel (plannedFiles plan0) emptyFilesResult
                [plan0] (dispatch (planFilesComplete plan0) w1)) as Hloop.
  destruct (LoopRun_plans _ _ _ _ _ _ Hloop value Hvalue)
    as (more & Hrecords & Hplans & Hne).
  rewrite Hrecords. cbn [app fmap list_fmap]. split_and!; [done..|].
  apply (f_equal length) in Hplans.
  rewrite length_app in Hplans. simpl in Hplans. rewrite length_fmap in Hplans.
  simpl. lia.
Qed.

(** The result of a run that returns holds, under every file path, the
    accepted results of the batches one after the other in the order the
    batches ran, and likewise the discarded ones. *)
Theorem planAndRefactor_history fuel input w value key :
  outcome (run fuel input w) = Returned value →
  entries (accepted (files value)) key =
    concat ((λ result, entries (accepted result) key) <$>
              batch_results (events (run fuel input w))) ∧
  entries (discarded (files value)) key =
    concat ((λ result, entries (discarded result) key) <$>
              batch_results (events (run fuel input w))).
Proof.
  rewrite planAndRefactor_unfold.
  destruct (planFiles input w) as [[plan0 |err0] w1]; cbv zeta; simpl; [|done].
  intros Hvalue.
  exact (LoopRun_history _ _ _ _ _ _ (loop_LoopRun _ _ _ _ _ _ _ _ _ _ _)
           value key Hvalue).
Qed.

(** [logger.warn] is called only for a cycle signal of a re-planning call:
    right after that call, with the result of the batch of this iteration;
    the dispatch of the empty plan follows and the run returns. *)
Theorem planAndRefactor_warns_on_cycle_only fuel input w i err result :
  events (run fuel input w) !! i = Some (Warned err result) →
  instanceof_CycleDetectedError err = true ∧
  (∃ j batch,
     i = (4 + j)%nat ∧
     events (run fuel input w) !! j = Some (RefactorBatchCalled batch (Fulfilled result)) ∧
     events (run fuel input w) !! (3 + j)%nat = Some (PlanFilesCalled (RejectedWith err))) ∧
  events (run fuel input w) !! (i + 1) = Some (Dispatched (planFilesComplete emptyPlan)) ∧
  events (run fuel input w) !! (i + 2) = None ∧
  ∃ value, outcome (run fuel input w) = Returned value.
Proof.
  rewrite planAndRefactor_unfold.
  destruct (planFiles input w) as [[plan0 |err0] w1]; cbv zeta; simpl.
  - destruct i as [|[|i]]; [done..|]. simpl. intros Hi.
    destruct (LoopRun_warned _ _ _ _ _ _ (loop_LoopRun _ _ _ _ _ _ _ _ _ _ _)
                i err result Hi)
      as (Hcycle & (j & batch & -> & Hj & Hj3) & Hnext1 & Hnext2 & Hret).
    split_and!; [done| |done..].
    by exists (S (S j)), batch.
  - by destruct i as [|i].
Qed.

(** When every batch files its results under their own paths, so does the
    result of a run that returns. *)
Theorem planAndRefactor_keeps_keyed fuel input w value :
  outcome (run fuel input w) = Returned value →
  Forall (λ result, keyed (accepted result) ∧ keyed (discarded result))
    (batch_results (events (run fuel input w))) →
  keyed (accepted (files value)) ∧ keyed (discarded (files value)).
Proof.
  rewrite planAndRefactor_unfold.
  destruct (planFiles input w) as [[plan0 |err0] w1]; cbv zeta; simpl; [|done].
  intros Hvalue Hbatches.
  destruct (LoopRun_records _ _ _ _ _ _ _ _ _ _ _ (loop_LoopRun _ _ _ _ _ _ _ _ _ _ _)
              value Hvalue) as (_ & _ & -> & _).
  apply accumulate_keyed; [apply keyed_empty..|done].
Qed.
End PlanAndRefactorFurther.

(** ** [enrichObjective] *)

Section EnrichObjectiveFurther.
Context {W Message : Type}.
Variable role : Message → string.
Variable functionCall_in : Message → bool.
Variable content : Message → string.
Variable trim : string → string.
Variable prompt : enrichObjectiveInput → W → Settled (list Message) * W.

(** The checks on the last message are made in a fixed order and each has
    its own error: no message at all; then a role other than the assistant,
    whether or not the message is a function call; then a function call of
    the assistant. *)
Theorem enrichObjective_errors (input : enrichObjectiveInput) (w w' : W)
    (messages : list Message) :
  prompt input w = (Fulfilled messages, w') →
  (messages = [] →
     enrichObjective role functionCall_in content trim prompt input w =
       (RejectedWith (Error "No messages found after prompt"), w')) ∧
  (∀ lastMessage,
     last messages = Some lastMessage →
     role lastMessage ≠ "assistant" →
     enrichObjective role functionCall_in content trim prompt input w =
       (RejectedWith (Error "Expected last message to be from assistant"), w')) ∧
  (∀ lastMessage,
     last messages = Some lastMessage →
     role lastMessage = "assistant" →
     functionCall_in lastMessage = true →
     enrichObjective role functionCall_in content trim prompt input w =
       (RejectedWith (Error "Expected last message to not be a function-call"), w')).
Proof.
  intros Hprompt. unfold enrichObjective. rewrite Hprompt.
  pose proof (enrichFromMessages_cases role functionCall_in content trim input messages)
    as Hcases.
  split_and!.
  - intros ->. by destruct Hcases as [_ ->].
  - intros lastMessage Hlast Hrole. rewrite Hlast in Hcases.
    rewrite decide_False in Hcases by done. by rewrite Hcases.
  - intros lastMessage Hlast Hrole Hcall. rewrite Hlast in Hcases.
    rewrite decide_True, Hcall in Hcases by done. by rewrite Hcases.
Qed.

(** Only the last message counts: what [enrichObjective] returns or throws
    after a conversation is what it returns or throws after the last message
    of that conversation alone. *)
Theorem enrichObjective_last_message_only
    (promptLast : enrichObjectiveInput → W → Settled (list Message) * W)
    (input : enrichObjectiveInput) (w w' : W)
    (earlier : list Message) (lastMessage : Message) :
  prompt input w = (Fulfilled (earlier ++ [lastMessage]), w') →
  promptLast input w = (Fulfilled [lastMessage], w') →
  enrichObjective role functionCall_in content trim prompt input w =
    enrichObjective role functionCall_in content trim promptLast input w.
Proof.
  intros Hprompt HpromptLast. unfold enrichObjective.
  rewrite Hprompt, HpromptLast. f_equal.
  unfold enrichFromMessages. by rewrite !array_get_last, last_snoc.
Qed.
End EnrichObjectiveFurther.

(** ** [references] *)

Lemma find_all_false {A : Type} (f : A → bool) (l : list A) :
  Forall (λ x, f x = false) l → find f l = None.
Proof.
  induction 1 as [|x l Hx _ IH]; [done|]. simpl. by rewrite Hx.
Qed.

Lemma find_first {A : Type} (f : A → bool) (before : list A) (x : A) (after : list A) :
  Forall (λ y, f y = false) before → f x = true →
  find f (before ++ x :: after) = Some x.
Proof.
  induction 1 as [|y before Hy _ IH]; intros Hx; simpl.
  - by rewrite Hx.
  - rewrite Hy. by apply IH.
Qed.

Lemma values_of_snd {K FileReferences : Type} (map : list (K * FileReferences)) :
  values_of map = map.*2.
Proof. unfold values_of. apply list_fmap_id. Qed.

Section ReferencesProperties.
Context {W Project Args K FileReferences Reference : Type}.
Variable package : FileReferences → option string.
Variable file_references : FileReferences → list Reference.
Variable module_of : Reference → option string.
Variable languageServiceReferences :
  Project → Args → W → Settled (list (K * FileReferences)) * W.
Variable nodeBuiltinReferences :
  Project → Args → string → list (K * FileReferences) → W →
  Settled (list (K * FileReferences)) * W.

Local Abbreviation references' :=
  (references package file_references module_of languageServiceReferences
     nodeBuiltinReferences).

(** The outcome of [references] when it asks [nodeBuiltinReferences] for the
    module [name], from the world [w1] after the language service. *)
Local Abbreviation viaNodeBuiltin project args name initialRefs w1 :=
  (match nodeBuiltinReferences project args name initialRefs w1 with
   | (Fulfilled result, w2) => (Fulfilled (values_of result), w2)
   | (RejectedWith err, w2) => (RejectedWith err, w2)
   end).

(** [references] returns the files of the language service as they are, in
    their order, and does not ask [nodeBuiltinReferences], when there are
    more than two of them, or none is of package [@types/node], or the first
    one of that package has no reference with a non-empty module name (later
    files of that package are not looked at). *)
Theorem references_keeps_initial project args w initialRefs w1 :
  languageServiceReferences project args w = (Fulfilled initialRefs, w1) →
  (2 < length initialRefs)%nat ∨
  Forall (λ file, package file ≠ Some "@types/node") initialRefs.*2 ∨
  (∃ before nodeBuiltin after,
     initialRefs.*2 = before ++ nodeBuiltin :: after ∧
     Forall (λ file, package file ≠ Some "@types/node") before ∧
     package nodeBuiltin = Some "@types/node" ∧
     Forall (λ ref, truthy (module_of ref) = false) (file_references nodeBuiltin)) →
  references' project args w = (Fulfilled initialRefs.*2, w1).
Proof.
  intros Hlang Hcases. unfold references. rewrite Hlang. cbv zeta.
  rewrite (values_of_snd initialRefs).
  case_decide as Hsize; [|done].
  destruct Hcases as [Hmore|[Hnone|(before & nodeBuiltin & after & Hfiles & Hbefore
                                      & Hpackage & Hmodules)]].
  - lia.
  - rewrite find_all_false; [done|].
    eapply Forall_impl; [exact Hnone|]. intros file Hfile. by apply bool_decide_eq_false.
  - rewrite Hfiles, (find_first _ before nodeBuiltin after).
    + unfold moduleName_of. by rewrite (find_all_false _ _ Hmodules).
    + eapply Forall_impl; [exact Hbefore|]. intros file Hfile.
      by apply bool_decide_eq_false.
    + by apply bool_decide_eq_true.
Qed.

(** With at most two files from the language service, [references] asks
    [nodeBuiltinReferences] for the first non-empty module name among the
    references of the first file of package [@types/node], hands it the files
    found so far, and returns its files or its error instead of the files of
    the language service. *)
Theorem references_asks_node_builtin
    project args w initialRefs w1 before nodeBuiltin after skipped ref rest name :
  languageServiceReferences project args w = (Fulfilled initialRefs, w1) →
  (length initialRefs ≤ 2)%nat →
  initialRefs.*2 = before ++ nodeBuiltin :: after →
  Forall (λ file, package file ≠ Some "@types/node") before →
  package nodeBuiltin = Some "@types/node" →
  file_references nodeBuiltin = skipped ++ ref :: rest →
  Forall (λ ref, truthy (module_of ref) = false) skipped →
  module_of ref = Some name →
  name ≠ "" →
  references' project args w = viaNodeBuiltin project args name initialRefs w1.
Proof.
  intros Hlang Hsize Hfiles Hbefore Hpackage Hrefs Hskipped Hmodule Hname.
  assert (Htruthy : truthy (Some name) = true) by by destruct name.
  unfold references. rewrite Hlang. cbv zeta.
  rewrite decide_True by done.
  rewrite Hfiles, (find_first _ before nodeBuiltin after).
  - unfold moduleName_of. rewrite Hrefs, (find_first _ skipped ref rest).
    + by rewrite Hmodule, Htruthy.
    + done.
    + by rewrite Hmodule.
  - eapply Forall_impl; [exact Hbefore|]. intros file Hfile.
    by apply bool_decide_eq_false.
  - by apply bool_decide_eq_true.
Qed.

(** Whatever the language service answers: its error is passed on;
    otherwise [references] returns its files as they are, or asks
    [nodeBuiltinReferences], and that only with at most two files, for a
    non-empty module name of a reference of one of them of package
    [@types/node]. *)
Theorem references_cases project args w :
  match languageServiceReferences project args w with
  | (RejectedWith err, w1) => references' project args w = (RejectedWith err, w1)
  | (Fulfilled initialRefs, w1) =>
      references' project args w = (Fulfilled initialRefs.*2, w1) ∨
      ∃ nodeBuiltin ref name,
        (length initialRefs ≤ 2)%nat ∧
        nodeBuiltin ∈ initialRefs.*2 ∧
        package nodeBuiltin = Some "@types/node" ∧
        ref ∈ file_references nodeBuiltin ∧
        module_of ref = Some name ∧
        name ≠ "" ∧
        references' project args w = viaNodeBuiltin project args name initialRefs w1
  end.
Proof.
  unfold references.
  destruct (languageServiceReferences project args w) as [[initialRefs|err] w1]; [|done].
  cbv zeta. rewrite (values_of_snd initialRefs).
  case_decide as Hsize; [|by left].
  destruct (find _ initialRefs.*2) as [nodeBuiltin|] eqn:Hfind; [|by left].
  apply find_some in Hfind as [Hin Hpackage].
  apply bool_decide_eq_true in Hpackage.
  unfold moduleName_of.
  destruct (find _ (file_references nodeBuiltin)) as [ref|] eqn:Hfind'; [|by left].
  apply find_some in Hfind' as [Hin' Htruthy].
  rewrite Htruthy.
  destruct (module_of ref) as [name|] eqn:Hmodule; [|done].
  right. exists nodeBuiltin, ref, name.
  split_and!; try done.
  - by apply list_elem_of_In.
  - by apply list_elem_of_In.
  - by intros ->.
Qed.
End ReferencesProperties.

(** ** The further theorems at work on scripted collaborators *)

Lemma keyed_singleton {A : Type} `{FileResult A} (result : A) :
  keyed ({[filePath result := [result]]} : gmap string (list A)).
Proof.
  intros key results [<- <-]%lookup_singleton_Some. by apply Forall_singleton.
Defined.


Lemma mutateToMergeRefactorRecords_keyed_batches :
  keyed (mutateToMergeRefactorRecords (accepted Scripted.batch2) (accepted Scripted.batch1)).
Proof.
  apply mutateToMergeRefactorRecords_keyed.
  - exact (keyed_singleton (Scripted.success "a" "c2")).
  - exact (keyed_singleton (Scripted.success "a" "c1")).
Defined.

Lemma mutateToMergeRefactorFilesResults_disjoint_comm_batches :
  mutateToMergeRefactorFilesResults Scripted.batch1
    {| accepted := {[ "b" := [Scripted.success "b" "c3"] ]}; discarded := ∅ |} =
  mutateToMergeRefactorFilesResults
    {| accepted := {[ "b" := [Scripted.success "b" "c3"] ]}; discarded := ∅ |}
    Scripted.batch1.
Proof.
  apply mutateToMergeRefactorFilesResults_disjoint_comm.
  - apply map_disjoint_singleton_l. vm_compute. reflexivity.
  - apply map_disjoint_empty_r.
  - vm_compute. reflexivity.
  - vm_compute. reflexivity.
Defined.


Lemma mutateToMergeRefactorRecords_dom_batches :
  dom (mutateToMergeRefactorRecords {[ "b" := [Scripted.success "b" "c3"] ]}
         (accepted Scripted.batch1)) =
    dom (accepted Scripted.batch1) ∪
    dom ({[ "b" := [Scripted.success "b" "c3"] ]} : gmap string (list RefactorResult)).
Proof.
  apply (mutateToMergeRefactorRecords_dom {[ "b" := [Scripted.success "b" "c3"] ]}
           (accepted Scripted.batch1) (Scripted.success "a" "c2")
           (accepted Scripted.batch1)).
  vm_compute. reflexivity.
Defined.

Lemma mutateToMergeRefactorFilesResults_completed_concatenates_batches :
  entries (accepted (mutateToMergeRefactorFilesResults Scripted.batch2 Scripted.batch1)) "a" =
    entries (accepted Scripted.batch1) "a" ++ entries (accepted Scripted.batch2) "a" ∧
  entries (discarded (mutateToMergeRefactorFilesResults Scripted.batch2 Scripted.batch1)) "a" =
    entries (discarded Scripted.batch1) "a" ++ entries (discarded Scripted.batch2) "a".
Proof.
  apply (mutateToMergeRefactorFilesResults_completed_concatenates
           Scripted.batch2 Scripted.batch1 "a").
  vm_compute. reflexivity.
Defined.

Lemma merge_completed_identity_and_associative_batches :
  merge emptyFilesResult Scripted.batch1 = Scripted.batch1 ∧
  merge (merge Scripted.batch1 Scripted.batch2) Scripted.batch1 =
    merge Scripted.batch1 (merge Scripted.batch2 Scripted.batch1).
Proof.
  destruct merge_completed_identity_and_associative as (Hleft & _ & Hassoc).
  split.
  - apply Hleft. vm_compute. reflexivity.
  - apply Hassoc; vm_compute; reflexivity.
Defined.


Lemma inherited_member_throws_constructor :
  mutateToMergeRefactorRecords_throws (accepted Scenarios.constructorBatch)
    (∅ : gmap string (list RefactorResult)) =
    Some (TypeError "existing.concat is not a function") ∧
  pushRefactorFileResults_throws Scenarios.constructorFile ∅ =
    Some (TypeError "array.push is not a function").
Proof.
  destruct (inherited_member_throws (accepted Scenarios.constructorBatch) ∅
              Scenarios.constructorFile ∅) as (_ & Hmerge & _ & Hpush).
  split.
  - destruct (mutateToMergeRefactorRecords_throws _ _) as [err|] eqn:Hthrown;
      [|by vm_compute in Hthrown].
    f_equal. by apply Hmerge.
  - destruct (pushRefactorFileResults_throws _ _) as [err|] eqn:Hthrown;
      [|by vm_compute in Hthrown].
    f_equal. by apply Hpush.
Defined.

Lemma planAndRefactor_merge_throws_constructor :
  Scripted.planAndRefactor 1 Scripted.input Scenarios.constructorAccepted =
    mkRun (Rejected (TypeError "existing.concat is not a function"))
      (Scripted.mkWorld [Fulfilled emptyPlan] [])
      [PlanFilesCalled
         (Fulfilled {| plannedFiles := ["constructor"]; rawResponse := "1. constructor" |});
       Dispatched
         (planFilesComplete
            {| plannedFiles := ["constructor"]; rawResponse := "1. constructor" |});
       RefactorBatchCalled ["constructor"] (Fulfilled Scenarios.constructorBatch);
       ResetToLastAcceptedCommitCalled "/repo" Scenarios.constructorBatch (Fulfilled tt);
       Merged Scenarios.constructorBatch].
Proof.
  apply (planAndRefactor_merge_throws
           Scripted.planFiles Scripted.refactorBatch Scripted.resetToLastAcceptedCommit
           Scripted.logger_warn Scripted.dispatch 0 Scripted.input
           Scenarios.constructorAccepted
           {| plannedFiles := ["constructor"]; rawResponse := "1. constructor" |}
           (Scripted.mkWorld [Fulfilled emptyPlan] [Fulfilled Scenarios.constructorBatch])
           Scenarios.constructorBatch
           (Scripted.mkWorld [Fulfilled emptyPlan] []) tt
           (Scripted.mkWorld [Fulfilled emptyPlan] [])
           (TypeError "existing.concat is not a function")).
  - reflexivity.
  - discriminate.
  - reflexivity.
  - reflexivity.
  - vm_compute. reflexivity.
Defined.

Lemma planAndRefactor_first_plan_unguarded_cycle :
  outcome (Scripted.planAndRefactor 1 Scripted.input Scenarios.cycleFirst) =
    Rejected (CycleDetectedError "cycle") ∧
  world (Scripted.planAndRefactor 1 Scripted.input Scenarios.cycleFirst) =
    Scripted.mkWorld [] [] ∧
  events (Scripted.planAndRefactor 1 Scripted.input Scenarios.cycleFirst) =
    [PlanFilesCalled (RejectedWith (CycleDetectedError "cycle"))] ∧
  dispatched (events (Scripted.planAndRefactor 1 Scripted.input Scenarios.cycleFirst)) = [].
Proof.
  apply (planAndRefactor_first_plan_unguarded
           Scripted.planFiles Scripted.refactorBatch Scripted.resetToLastAcceptedCommit
           Scripted.logger_warn Scripted.dispatch 1 Scripted.input Scenarios.cycleFirst).
  reflexivity.
Defined.

Lemma planAndRefactor_nothing_planned_idle :
  Scripted.planAndRefactor 0 Scripted.input Scenarios.idle =
    mkRun
      (Returned {| files := {| accepted := ∅; discarded := ∅ |};
                   planFilesResults := [emptyPlan] |})
      (Scripted.mkWorld [] [Fulfilled Scripted.batch1])
      [PlanFilesCalled (Fulfilled emptyPlan); Dispatched (planFilesComplete emptyPlan)].
Proof.
  apply (planAndRefactor_nothing_planned
           Scripted.planFiles Scripted.refactorBatch Scripted.resetToLastAcceptedCommit
           Scripted.logger_warn Scripted.dispatch 0 Scripted.input Scenarios.idle);
    reflexivity.
Defined.

Lemma planAndRefactor_batch_rejected_budget :
  outcome (Scripted.planAndRefactor 3 Scripted.input Scenarios.batchFailing) =
    Rejected (Error "budget") ∧
  events (Scripted.planAndRefactor 3 Scripted.input Scenarios.batchFailing) !! (2 + 1)%nat =
    None.
Proof.
  apply (planAndRefactor_batch_rejected
           Scripted.planFiles Scripted.refactorBatch Scripted.resetToLastAcceptedCommit
           Scripted.logger_warn Scripted.dispatch 3 Scripted.input Scenarios.batchFailing
           2%nat ["a"; "b"] (Error "budget")).
  reflexivity.
Defined.

Lemma planAndRefactor_reset_rejected_git :
  outcome (Scenarios.planAndRefactorResetRejecting 3 Scripted.input Scripted.finishing) =
    Rejected (Error "git reset failed") ∧
  events (Scenarios.planAndRefactorResetRejecting 3 Scripted.input Scripted.finishing)
    !! (3 + 1)%nat = None ∧
  ∃ j batch,
    3%nat = S j ∧
    events (Scenarios.planAndRefactorResetRejecting 3 Scripted.input Scripted.finishing)
      !! j = Some (RefactorBatchCalled batch (Fulfilled Scripted.batch1)).
Proof.
  apply (planAndRefactor_reset_rejected
           Scripted.planFiles Scripted.refactorBatch Scenarios.resetRejecting
           Scripted.logger_warn Scripted.dispatch 3 Scripted.input Scripted.finishing
           3%nat "/repo" Scripted.batch1 (Error "git reset failed")).
  vm_compute. reflexivity.
Defined.

Lemma planAndRefactor_batches_follow_plans_repeating :
  ∃ value,
    outcome (Scripted.planAndRefactor 2 Scripted.input Scripted.repeating) =
      Returned value ∧
    plannedFiles <$> planFilesResults value =
      batch_calls (events (Scripted.planAndRefactor 2 Scripted.input Scripted.repeating))
      ++ [[]] ∧
    Forall (λ batch, batch ≠ [])
      (batch_calls (events (Scripted.planAndRefactor 2 Scripted.input Scripted.repeating))) ∧
    length (planFilesResults value) =
      S (length
           (batch_calls
              (events (Scripted.planAndRefactor 2 Scripted.input Scripted.repeating)))).
Proof.
  eexists. split; [vm_compute; reflexivity|].
  apply (planAndRefactor_batches_follow_plans
           Scripted.planFiles Scripted.refactorBatch Scripted.resetToLastAcceptedCommit
           Scripted.logger_warn Scripted.dispatch 2 Scripted.input Scripted.repeating).
  vm_compute. reflexivity.
Defined.

Lemma planAndRefactor_history_repeating :
  ∃ value,
    outcome (Scripted.planAndRefactor 2 Scripted.input Scripted.repeating) =
      Returned value ∧
    entries (accepted (files value)) "a" =
      concat ((λ result, entries (accepted result) "a") <$>
                batch_results
                  (events (Scripted.planAndRefactor 2 Scripted.input Scripted.repeating))) ∧
    entries (discarded (files value)) "a" =
      concat ((λ result, entries (discarded result) "a") <$>
                batch_results
                  (events (Scripted.planAndRefactor 2 Scripted.input Scripted.repeating))).
Proof.
  eexists. split; [vm_compute; reflexivity|].
  apply (planAndRefactor_history
           Scripted.planFiles Scripted.refactorBatch Scripted.resetToLastAcceptedCommit
           Scripted.logger_warn Scripted.dispatch 2 Scripted.input Scripted.repeating).
  vm_compute. reflexivity.
Defined.

Lemma planAndRefactor_warns_on_cycle_only_cycling :
  instanceof_CycleDetectedError (CycleDetectedError "cycle") = true ∧
  (∃ j batch,
     6%nat = (4 + j)%nat ∧
     events (Scripted.planAndRefactor 1 Scripted.input Scripted.cycling) !! j =
       Some (RefactorBatchCalled batch (Fulfilled Scripted.batch1)) ∧
     events (Scripted.planAndRefactor 1 Scripted.input Scripted.cycling) !! (3 + j)%nat =
       Some (PlanFilesCalled (RejectedWith (CycleDetectedError "cycle")))) ∧
  events (Scripted.planAndRefactor 1 Scripted.input Scripted.cycling) !! (6 + 1)%nat =
    Some (Dispatched (planFilesComplete emptyPlan)) ∧
  events (Scripted.planAndRefactor 1 Scripted.input Scripted.cycling) !! (6 + 2)%nat = None ∧
  ∃ value,
    outcome (Scripted.planAndRefactor 1 Scripted.input Scripted.cycling) = Returned value.
Proof.
  apply (planAndRefactor_warns_on_cycle_only
           Scripted.planFiles Scripted.refactorBatch Scripted.resetToLastAcceptedCommit
           Scripted.logger_warn Scripted.dispatch 1 Scripted.input Scripted.cycling
           6%nat (CycleDetectedError "cycle") Scripted.batch1).
  vm_compute. reflexivity.
Defined.

Lemma enrichObjective_errors_function_result :
  Chat.enrichObjective Chat.input
    (Fulfilled (Chat.answered ++ [Chat.mkMessage "function" true "[]"])) =
    (RejectedWith (Error "Expected last message to be from assistant"),
     Fulfilled (Chat.answered ++ [Chat.mkMessage "function" true "[]"])).
Proof.
  apply (enrichObjective_errors Chat.role Chat.functionCall_in Chat.content Chat.trim
           Chat.prompt Chat.input
           (Fulfilled (Chat.answered ++ [Chat.mkMessage "function" true "[]"]))
           (Fulfilled (Chat.answered ++ [Chat.mkMessage "function" true "[]"]))
           (Chat.answered ++ [Chat.mkMessage "function" true "[]"])
           eq_refl)
    with (lastMessage := Chat.mkMessage "function" true "[]").
  - reflexivity.
  - discriminate.
Defined.

Lemma enrichObjective_last_message_only_answered :
  Chat.enrichObjective Chat.input (Fulfilled Chat.answered) =
    enrichObjective Chat.role Chat.functionCall_in Chat.content Chat.trim
      (λ _ w, (Fulfilled [Chat.mkMessage "assistant" false
                            (newline +:+ "f is used in a.ts. ")], w))
      Chat.input (Fulfilled Chat.answered).
Proof.
  apply (enrichObjective_last_message_only Chat.role Chat.functionCall_in Chat.content
           Chat.trim Chat.prompt _ Chat.input (Fulfilled Chat.answered)
           (Fulfilled Chat.answered)
           [Chat.mkMessage "user" false "rename f to g"]
           (Chat.mkMessage "assistant" false (newline +:+ "f is used in a.ts. ")));
    reflexivity.
Defined.

Lemma references_keeps_initial_first_match :
  Scenarios.references
    [("path.d.ts", Scenarios.pathTypes); ("fs.d.ts", Scenarios.fsTypes)] [] =
    (Fulfilled [Scenarios.pathTypes; Scenarios.fsTypes], []).
Proof.
  apply (references_keeps_initial Scenarios.file_package Scenarios.file_refs
           Scenarios.ref_module
           (Scenarios.languageService
              [("path.d.ts", Scenarios.pathTypes); ("fs.d.ts", Scenarios.fsTypes)])
           Scenarios.nodeBuiltin tt tt []
           [("path.d.ts", Scenarios.pathTypes); ("fs.d.ts", Scenarios.fsTypes)] []).
  - reflexivity.
  - right. right. exists [], Scenarios.pathTypes, [Scenarios.fsTypes].
    split_and!; [reflexivity|constructor|reflexivity|by repeat constructor].
Defined.

Lemma references_asks_node_builtin_fs :
  Scenarios.references [("fs.d.ts", Scenarios.fsTypes); ("src/a.ts", Scenarios.user)] [] =
    (Fulfilled
       [Scenarios.fsTypes; Scenarios.user;
        Scenarios.mkFile "src/b.ts" None [Scenarios.mkRef "readFile" None]],
     ["fs"]).
Proof.
  apply (references_asks_node_builtin Scenarios.file_package Scenarios.file_refs
           Scenarios.ref_module
           (Scenarios.languageService
              [("fs.d.ts", Scenarios.fsTypes); ("src/a.ts", Scenarios.user)])
           Scenarios.nodeBuiltin tt tt []
           [("fs.d.ts", Scenarios.fsTypes); ("src/a.ts", Scenarios.user)] []
           [] Scenarios.fsTypes [Scenarios.user]
           [Scenarios.mkRef "declare" None; Scenarios.mkRef "empty" (Some "")]
           (Scenarios.mkRef "readFile" (Some "fs")) [] "fs").
  - reflexivity.
  - simpl. lia.
  - reflexivity.
  - constructor.
  - reflexivity.
  - reflexivity.
  - by repeat constructor.
  - reflexivity.
  - discriminate.
Defined.

Lemma planAndRefactor_keeps_keyed_repeating :
  ∃ value,
    outcome (Scripted.planAndRefactor 2 Scripted.input Scripted.repeating) =
      Returned value ∧
    keyed (accepted (files value)) ∧ keyed (discarded (files value)).
Proof.
  eexists. split; [vm_compute; reflexivity|].
  apply (planAndRefactor_keeps_keyed
           Scripted.planFiles Scripted.refactorBatch Scripted.resetToLastAcceptedCommit
           Scripted.logger_warn Scripted.dispatch 2 Scripted.input Scripted.repeating).
  - vm_compute. reflexivity.
  - replace (batch_results _) with [Scripted.batch1; Scripted.batch2]
      by (vm_compute; reflexivity).
    repeat constructor.
    + exact (keyed_singleton (Scripted.success "a" "c1")).
    + exact (keyed_singleton (Scripted.failure "b")).
    + exact (keyed_singleton (Scripted.success "a" "c2")).
    + apply keyed_empty.
Defined.
